(** * Lighthouse Monitor: score history and change detection

    A shallow embedding of [lighthouse_monitor.py].  Python [int]s are [Z],
    Python [str]s are [string] (byte strings; the [str] methods are modelled
    on their ASCII range), Python [dict]s are insertion-ordered association
    lists, and the effects of [main] (the history file, the HTTP calls, the
    SMTP delivery, the clock) are threaded through an explicit world in a
    small state-and-exception monad.  Console output is not modelled. *)

From Stdlib Require Import List String Ascii ZArith Lia Bool Arith.
From Stdlib Require Import DecimalString.
Import ListNotations.

Local Open Scope list_scope.
Local Open Scope string_scope.
Local Open Scope Z_scope.

(** ** Python dictionaries

    A [dict] keeps its keys in insertion order; [d\[k\] = v] overwrites the
    value of an existing key in place and appends a new key at the end. *)
Module Dict.

Definition dict (V : Type) := list (string * V).

Definition empty {V} : dict V := [].

(** [d.get(k)] *)
Fixpoint get {V} (d : dict V) (k : string) : option V :=
  match d with
  | [] => None
  | (k', v) :: d' => if String.eqb k k' then Some v else get d' k
  end.

(** [k in d] *)
Definition mem {V} (d : dict V) (k : string) : bool :=
  match get d k with Some _ => true | None => false end.

(** [d\[k\] = v] *)
Fixpoint set {V} (d : dict V) (k : string) (v : V) : dict V :=
  match d with
  | [] => [(k, v)]
  | (k', v') :: d' =>
      if String.eqb k k' then (k', v) :: d' else (k', v') :: set d' k v
  end.

(** [d.items()] *)
Definition items {V} (d : dict V) : list (string * V) := d.

Definition keys {V} (d : dict V) : list string := map fst d.

(** [bool(d)]: a dictionary is truthy when it is not empty. *)
Definition truthy {V} (d : dict V) : bool :=
  match d with [] => false | _ :: _ => true end.

(** The representation invariant of a Python dictionary: no key twice. *)
Definition wf {V} (d : dict V) : Prop := NoDup (keys d).

End Dict.

Abbreviation dict := Dict.dict.

(** ** Data model *)

(** A Score Record: category -> score. *)
Definition scores_t := dict Z.

Inductive direction_t := improved | declined.

(** The dictionary literal appended by [compare_scores]. *)
Record change := mk_change {
  ch_category : string;
  ch_previous : Z;
  ch_current : Z;
  ch_diff : Z;
  ch_direction : direction_t
}.

(** An entry of [current_results] in [main]. *)
Record result := mk_result {
  r_url : string;
  r_scores : scores_t;
  r_previous : scores_t;
  r_changes : list change
}.

(** An entry of a run's ["results"] in the history file. *)
Record stored_result := mk_stored {
  s_url : string;
  s_scores : scores_t
}.

Record run := mk_run {
  run_date : string;
  run_results : list stored_result
}.

Record history := mk_history { runs : list run }.

(** ** Change detection *)

(** Body of the [for] loop of [compare_scores] for one item of
    [current.items()]: the changes it appends. *)
Definition compare_item (previous : scores_t) (threshold : Z)
    (item : string * Z) : list change :=
  let '(category, current_score) := item in
  match Dict.get previous category with
  | Some prev_score =>
      let diff := current_score - prev_score in
      if Z.abs diff >=? threshold then
        [ {| ch_category := category;
             ch_previous := prev_score;
             ch_current := current_score;
             ch_diff := diff;
             ch_direction := if diff >? 0 then improved else declined |} ]
      else []
  | None => []
  end.

Definition compare_scores (current previous : scores_t) (threshold : Z)
    : list change :=
  fold_left (fun changes item =>
               (changes ++ compare_item previous threshold item)%list)
            (Dict.items current) [].

(** ** Python string operations used by the renderers and by [main] *)

Definition dq : string := String (ascii_of_nat 34) EmptyString.
Definition nl : string := String (ascii_of_nat 10) EmptyString.

(** [str(n)] for an [int]. *)
Definition str (n : Z) : string := NilZero.string_of_int (Z.to_int n).

Definition is_upper (c : ascii) : bool :=
  let n := nat_of_ascii c in ((65 <=? n) && (n <=? 90))%nat.

Definition is_lower (c : ascii) : bool :=
  let n := nat_of_ascii c in ((97 <=? n) && (n <=? 122))%nat.

Definition to_upper (c : ascii) : ascii :=
  if is_lower c then ascii_of_nat (nat_of_ascii c - 32) else c.

Definition to_lower (c : ascii) : ascii :=
  if is_upper c then ascii_of_nat (nat_of_ascii c + 32) else c.

(** [s.title()]: the first letter of every run of letters in upper case, the
    others in lower case.  Letters are the ASCII letters: a character
    outside ASCII is left as it is and counts as uncased, whereas Python
    applies the Unicode case mappings to it. *)
Fixpoint title_from (previous_is_cased : bool) (s : string) : string :=
  match s with
  | EmptyString => EmptyString
  | String c s' =>
      String (if previous_is_cased then to_lower c else to_upper c)
             (title_from (is_upper c || is_lower c) s')
  end.

Definition title (s : string) : string := title_from false s.

(** [s.replace(a, b)] for one-character [a] and [b]. *)
Fixpoint replace_char (a b : ascii) (s : string) : string :=
  match s with
  | EmptyString => EmptyString
  | String c s' => String (if Ascii.eqb c a then b else c) (replace_char a b s')
  end.

(** [s.replace(a, b)] for a one-character [a] and the empty string [b]. *)
Fixpoint remove_char (a : ascii) (s : string) : string :=
  match s with
  | EmptyString => EmptyString
  | String c s' =>
      if Ascii.eqb c a then remove_char a s' else String c (remove_char a s')
  end.

(** [c * n] for a one-character string [c]. *)
Fixpoint times (c : ascii) (n : nat) : string :=
  match n with
  | O => EmptyString
  | S n' => String c (times c n')
  end.

(** [f"{s:w}"] for a string: padded with spaces on the right. *)
Definition ljust (s : string) (w : nat) : string :=
  s ++ times " " (w - String.length s).

(** [f"{n:w}"] for a number: padded with spaces on the left. *)
Definition rjust (s : string) (w : nat) : string :=
  times " " (w - String.length s) ++ s.

Definition is_space (c : ascii) : bool :=
  let n := nat_of_ascii c in
  (((9 <=? n) && (n <=? 13)) || ((28 <=? n) && (n <=? 32)))%nat.

Fixpoint lstrip (s : string) : string :=
  match s with
  | EmptyString => EmptyString
  | String c s' => if is_space c then lstrip s' else s
  end.

Fixpoint rstrip (s : string) : string :=
  match s with
  | EmptyString => EmptyString
  | String c s' =>
      match rstrip s' with
      | EmptyString => if is_space c then EmptyString else String c EmptyString
      | r => String c r
      end
  end.

(** [s.strip()], for the whitespace of the ASCII range (tab to carriage
    return, the separators 28 to 31, and space); Python also removes the
    whitespace characters outside ASCII. *)
Definition strip (s : string) : string := rstrip (lstrip s).

(** [bool(s)] for a string. *)
Definition nonempty (s : string) : bool :=
  match s with EmptyString => false | String _ _ => true end.

(** ** Report rendering *)

(** [category.replace("-", " ").title()] *)
Definition label (category : string) : string :=
  title (replace_char "-" " " category).

(** [prev_score = previous.get(category, "N/A")], as the f-strings print it. *)
Definition show_prev (prev_score : option Z) : string :=
  match prev_score with
  | Some p => str p
  | None => "N/A"
  end.

Definition span (cls body : string) : string :=
  "<span class=" ++ dq ++ cls ++ dq ++ ">" ++ body ++ "</span>".

Definition badge_class (score : Z) : string :=
  if score >=? 90 then "score-good"
  else if score >=? 50 then "score-ok"
  else "score-bad".

Definition change_html (score : Z) (prev_score : option Z) : string :=
  match prev_score with
  | Some p =>
      let diff := score - p in
      if diff >? 0 then
        "<span class=" ++ dq ++ "improved" ++ dq ++ ">+" ++ str diff ++ " ‚Üë</span>"
      else if diff <? 0 then
        "<span class=" ++ dq ++ "declined" ++ dq ++ ">" ++ str diff ++ " ‚Üì</span>"
      else
        "<span class=" ++ dq ++ "no-change" ++ dq ++ ">‚Äî</span>"
  | None =>
      "<span class=" ++ dq ++ "no-change" ++ dq ++ ">First run</span>"
  end.

Definition html_head (run_date : string) : string :=
  "
    <html>
    <head>
        <style>
            body { font-family: Arial, sans-serif; line-height: 1.6; color: #333; }
            .container { max-width: 600px; margin: 0 auto; padding: 20px; }
            h1 { color: #2c3e50; border-bottom: 2px solid #3498db; padding-bottom: 10px; }
            h2 { color: #34495e; margin-top: 30px; }
            .url-section { background: #f9f9f9; padding: 15px; border-radius: 8px; margin: 20px 0; }
            .score-table { width: 100%; border-collapse: collapse; margin: 15px 0; }
            .score-table th, .score-table td { padding: 10px; text-align: left; border-bottom: 1px solid #ddd; }
            .score-table th { background: #3498db; color: white; }
            .improved { color: #27ae60; font-weight: bold; }
            .declined { color: #e74c3c; font-weight: bold; }
            .no-change { color: #7f8c8d; }
            .alert { background: #fff3cd; border: 1px solid #ffc107; padding: 10px; border-radius: 4px; margin: 10px 0; }
            .score-badge { display: inline-block; padding: 4px 12px; border-radius: 20px; font-weight: bold; }
            .score-good { background: #d4edda; color: #155724; }
            .score-ok { background: #fff3cd; color: #856404; }
            .score-bad { background: #f8d7da; color: #721c24; }
        </style>
    </head>
    <body>
        <div class=" ++ dq ++ "container" ++ dq ++ ">
            <h1>üîç Lighthouse Report</h1>
            <p><strong>Run Date:</strong> " ++ run_date ++ "</p>
    ".

Definition html_alert : string :=
  "<div class=" ++ dq ++ "alert" ++ dq ++ ">‚ö†Ô∏è Score changes detected!</div>".

Definition html_table_head : string :=
  "
            <table class=" ++ dq ++ "score-table" ++ dq ++ ">
                <tr>
                    <th>Category</th>
                    <th>Current</th>
                    <th>Previous</th>
                    <th>Change</th>
                </tr>
        ".

Definition html_foot : string :=
  "
        </div>
    </body>
    </html>
    ".

(** The f-string of a row of the HTML table, with its five interpolated
    values. *)
Definition html_row_template (lbl badge score prev_score change
    : string) : string :=
  "
                <tr>
                    <td>" ++ lbl ++ "</td>
                    <td><span class=" ++ dq ++ "score-badge " ++ badge ++ dq ++ ">" ++ score
  ++ "</span></td>
                    <td>" ++ prev_score ++ "</td>
                    <td>" ++ change
  ++ "</td>
                </tr>
            ".

(** Body of the inner loop of [format_email_html]: the text it adds to
    [html] for one item of [scores.items()]. *)
Definition html_row (previous : scores_t) (item : string * Z) : string :=
  let '(category, score) := item in
  let prev_score := Dict.get previous category in
  html_row_template (label category) (badge_class score) (str score)
                    (show_prev prev_score) (change_html score prev_score).

(** Body of the outer loop of [format_email_html]. *)
Definition html_section (html : string) (r : result) : string :=
  let html := html ++ "<div class=" ++ dq ++ "url-section" ++ dq ++ "><h2>"
                   ++ r_url r ++ "</h2>" in
  let html :=
    match r_changes r with
    | _ :: _ => html ++ html_alert
    | [] => html
    end in
  let html := html ++ html_table_head in
  let html :=
    fold_left (fun html item => html ++ html_row (r_previous r) item)
              (Dict.items (r_scores r)) html in
  html ++ "</table></div>".

Definition format_email_html (results : list result) (run_date : string)
    : string :=
  fold_left html_section results (html_head run_date) ++ html_foot.

Definition change_text (score : Z) (prev_score : option Z) : string :=
  match prev_score with
  | Some p =>
      let diff := score - p in
      if diff >? 0 then "+" ++ str diff ++ " ‚Üë"
      else if diff <? 0 then str diff ++ " ‚Üì"
      else "‚Äî"
  | None => "First run"
  end.

Definition text_alert : string := "‚ö†Ô∏è  SCORE CHANGES DETECTED!" ++ nl ++ nl.

(** The f-string of a row of the plain report, with its four interpolated
    values. *)
Definition text_row_template (lbl score prev_score change : string)
    : string :=
  "  " ++ ljust lbl 20 ++ " " ++ rjust score 3
  ++ " (was " ++ prev_score ++ ") " ++ change ++ nl.

(** Body of the inner loop of [format_email_text]. *)
Definition text_row (previous : scores_t) (item : string * Z) : string :=
  let '(category, score) := item in
  let prev_score := Dict.get previous category in
  text_row_template (label category) (str score) (show_prev prev_score)
                    (change_text score prev_score).

(** Body of the outer loop of [format_email_text]. *)
Definition text_section (text : string) (r : result) : string :=
  let text := text ++ nl ++ r_url r ++ nl
                   ++ times "-" (String.length (r_url r)) ++ nl ++ nl in
  let text :=
    match r_changes r with
    | _ :: _ => text ++ text_alert
    | [] => text
    end in
  let text :=
    fold_left (fun text item => text ++ text_row (r_previous r) item)
              (Dict.items (r_scores r)) text in
  text ++ nl.

Definition format_email_text (results : list result) (run_date : string)
    : string :=
  fold_left text_section results
    ("LIGHTHOUSE REPORT" ++ nl ++ times "=" 50 ++ nl
     ++ "Run Date: " ++ run_date ++ nl ++ nl).

(** ** The world of [main]

    What exists outside the process: the history file next to the script,
    the PageSpeed API, the SMTP server and the clock. *)

(** [history.json]: either text that [json.load] rejects, or the encoding
    of a history in the persisted format.  A file holding well-formed JSON
    of another shape, on which [main] fails with a [KeyError] or a
    [TypeError] after loading it, is not represented. *)
Inductive file_contents :=
| Malformed (raw : string)
| Encoded (h : history).

(** What [requests.get] and the decoding of its body give for one call: a
    [requests.RequestException], or the ["categories"] of the
    ["lighthouseResult"], each with its [int(score * 100)].  An answer
    whose body is not of this shape (a category without a numeric score),
    on which [run_lighthouse] raises an exception that nothing catches, is
    not represented. *)
Inductive http_result :=
| RequestException
| Response (categories_data : dict Z).

Inductive exn :=
| JSONDecodeError
| SMTPException
| SystemExit (code : Z).

Inductive event :=
| EvGet (url : string)
| EvSave (h : history)
| EvSmtp (subject html_body text_body : string).

Record world := mk_world {
  history_file : option file_contents;  (* [None]: the file does not exist *)
  network : list http_result;           (* answers of the API, in call order *)
  smtp_up : bool;                       (* whether the SMTP session succeeds *)
  now : string;                         (* [datetime.now().isoformat()] *)
  log : list event                      (* effects performed so far *)
}.

Definition set_history_file (f : option file_contents) (w : world) : world :=
  mk_world f (network w) (smtp_up w) (now w) (log w).

Definition set_network (n : list http_result) (w : world) : world :=
  mk_world (history_file w) n (smtp_up w) (now w) (log w).

Definition add_log (e : event) (w : world) : world :=
  mk_world (history_file w) (network w) (smtp_up w) (now w) (log w ++ [e])%list.

Inductive outcome (A : Type) :=
| Ret (a : A)
| Raise (e : exn).

Arguments Ret {A} a.
Arguments Raise {A} e.

Definition M (A : Type) : Type := world -> outcome A * world.

Definition ret {A} (a : A) : M A := fun w => (Ret a, w).

Definition raise {A} (e : exn) : M A := fun w => (Raise e, w).

Definition bind {A B} (m : M A) (k : A -> M B) : M B :=
  fun w =>
    match m w with
    | (Ret a, w') => k a w'
    | (Raise e, w') => (Raise e, w')
    end.

(** [try: m except Exception: h]; [SystemExit] is not an [Exception]. *)
Definition try_except {A} (m : M A) (h : M A) : M A :=
  fun w =>
    match m w with
    | (Raise (SystemExit c), w') => (Raise (SystemExit c), w')
    | (Raise _, w') => h w'
    | (Ret a, w') => (Ret a, w')
    end.

Declare Scope monad_scope.
Delimit Scope monad_scope with monad.
Notation "x <- m ;; k" := (bind m (fun x => k))
  (at level 61, m at next level, right associativity) : monad_scope.
Notation "m ;; k" := (bind m (fun _ => k))
  (at level 61, right associativity) : monad_scope.
Local Open Scope monad_scope.

Definition emit (e : event) : M unit := fun w => (Ret tt, add_log e w).

(** [for x in xs: acc = body(acc, x)] *)
Fixpoint for_each {A S} (xs : list A) (body : S -> A -> M S) (acc : S) : M S :=
  match xs with
  | [] => ret acc
  | x :: xs' => acc' <- body acc x ;; for_each xs' body acc'
  end.

(** ** Configuration, as [load_config] returns it *)

Record config := mk_config {
  urls : list string;
  api_key : string;
  threshold : Z;
  smtp_host : string;
  smtp_port : Z;
  smtp_user : string;
  smtp_password : string;
  email_from : string;
  email_to : string;
  categories : list string
}.

(** ** History file *)

Definition load_history : M history :=
  fun w =>
    match history_file w with
    | Some (Encoded h) => (Ret h, w)
    | Some (Malformed _) => (Raise JSONDecodeError, w)
    | None => (Ret {| runs := [] |}, w)
    end.

Definition save_history (h : history) : M unit :=
  fun w => (Ret tt, add_log (EvSave h) (set_history_file (Some (Encoded h)) w)).

(** ** Audit of one URL *)

(** Body of the extraction loop of [run_lighthouse] for one category:
    the category is looked up under its name, then under its name without
    hyphens; the third branch repeats the first test for [best-practices].
    The values of [categories_data] stand for [int(score * 100)]. *)
Definition extract_score (categories_data : dict Z) (scores : scores_t)
    (cat : string) : scores_t :=
  match Dict.get categories_data cat with
  | Some v => Dict.set scores cat v
  | None =>
      match Dict.get categories_data (remove_char "-" cat) with
      | Some v => Dict.set scores cat v
      | None =>
          if String.eqb cat "best-practices" then
            match Dict.get categories_data "best-practices" with
            | Some v => Dict.set scores cat v
            | None => scores
            end
          else scores
      end
  end.

(** [scores] at the end of the extraction loop. *)
Definition extract_scores (categories_data : dict Z) (categories : list string)
    : scores_t :=
  fold_left (extract_score categories_data) categories Dict.empty.

(** The HTTP call: it takes the next answer of the network; when none is
    left the call fails. *)
Definition requests_get (url : string) : M http_result :=
  fun w =>
    match network w with
    | [] => (Ret RequestException, add_log (EvGet url) w)
    | r :: rest => (Ret r, add_log (EvGet url) (set_network rest w))
    end.

(** The [params] dictionary built at the start of [run_lighthouse] is never
    read; the query string only selects the answer, which the network of
    the world supplies. *)
Definition run_lighthouse (url api_key : string) (categories : list string)
    : M (option scores_t) :=
  r <- requests_get url ;;
  match r with
  | RequestException => ret None
  | Response categories_data =>
      ret (Some (extract_scores categories_data categories))
  end.

(** ** Notification *)

(** The [try] block of [send_email]: the SMTP session, which raises when
    the server cannot be reached or refuses the message. *)
Definition smtp_deliver (subject html_body text_body : string) : M unit :=
  emit (EvSmtp subject html_body text_body) ;;
  fun w => if smtp_up w then (Ret tt, w) else (Raise SMTPException, w).

Definition send_email (cfg : config) (subject html_body text_body : string)
    : M bool :=
  if negb (nonempty (smtp_user cfg) && nonempty (smtp_password cfg)
           && nonempty (email_to cfg)) then
    ret false
  else
    try_except
      (smtp_deliver subject html_body text_body ;; ret true)
      (ret false).

(** ** Main flow *)

(** [runs\[-1\] if runs else None] *)
Definition latest (h : history) : option run :=
  match runs h with
  | [] => None
  | r :: rs => Some (last rs r)
  end.

(** The dictionary [previous_scores] of [main]. *)
Definition previous_scores_of (previous_run : option run) : dict scores_t :=
  match previous_run with
  | Some r =>
      fold_left (fun previous_scores result =>
                   Dict.set previous_scores (s_url result) (s_scores result))
                (run_results r) Dict.empty
  | None => Dict.empty
  end.

(** [previous_scores.get(url, {})] *)
Definition get_or_empty (previous_scores : dict scores_t) (url : string)
    : scores_t :=
  match Dict.get previous_scores url with
  | Some p => p
  | None => Dict.empty
  end.

(** Body of the audit loop of [main]; the accumulator is
    [(current_results, has_changes)]. *)
Definition audit_url (cfg : config) (previous_scores : dict scores_t)
    (acc : list result * bool) (url : string) : M (list result * bool) :=
  let '(current_results, has_changes) := acc in
  scores <- run_lighthouse url (api_key cfg) (categories cfg) ;;
  match scores with
  | Some scores =>
      if Dict.truthy scores then
        let prev := get_or_empty previous_scores url in
        let changes := compare_scores scores prev (threshold cfg) in
        let has_changes :=
          match changes with _ :: _ => true | [] => has_changes end in
        ret ((current_results
               ++ [ {| r_url := url; r_scores := scores;
                       r_previous := prev; r_changes := changes |} ])%list,
             has_changes)
      else ret acc
  | None => ret acc
  end.

(** [history\["runs"\].append(run)] followed by the cut to the last 52. *)
Definition append_run (h : history) (r : run) : history :=
  let rs := (runs h ++ [r])%list in
  if (52 <? List.length rs)%nat then
    {| runs := skipn (List.length rs - 52) rs |}
  else {| runs := rs |}.

Definition subject_alert : string :=
  "üö® Lighthouse Alert: Score Changes Detected".

Definition subject_quiet : string :=
  "‚úÖ Lighthouse Report: No Significant Changes".

(** [\[u.strip() for u in config\["urls"\] if u.strip()\]] *)
Definition valid_urls (urls : list string) : list string :=
  map strip (filter (fun u => nonempty (strip u)) urls).

(** The run that [main] appends. *)
Definition new_run (run_date : string) (current_results : list result) : run :=
  {| run_date := run_date;
     run_results :=
       map (fun r => {| s_url := r_url r; s_scores := r_scores r |})
           current_results |}.

Definition main (cfg : config) : M unit :=
  match urls cfg with
  | [] => raise (SystemExit 1)
  | _ :: _ =>
      match valid_urls (urls cfg) with
      | [] => raise (SystemExit 1)
      | _ :: _ =>
          history <- load_history ;;
          run_date <- (fun w => (Ret (now w), w)) ;;
          let previous_run := latest history in
          let previous_scores := previous_scores_of previous_run in
          acc <- for_each (valid_urls (urls cfg))
                          (audit_url cfg previous_scores) ([], false) ;;
          let '(current_results, has_changes) := acc in
          let history := append_run history (new_run run_date current_results) in
          save_history history ;;
          match current_results with
          | _ :: _ =>
              let subject :=
                if has_changes then subject_alert else subject_quiet in
              let html_body := format_email_html current_results run_date in
              let text_body := format_email_text current_results run_date in
              _ <- send_email cfg subject html_body text_body ;;
              ret tt
          | [] => ret tt
          end
      end
  end.

(** ** Sample data for the worked examples *)

Definition sample_run (n : nat) : run :=
  {| run_date := str (Z.of_nat n); run_results := [] |}.

Definition sample_change : change :=
  {| ch_category := "performance"; ch_previous := 85; ch_current := 79;
     ch_diff := -6; ch_direction := declined |}.

(** ** Derived notions used in the statements about [main] *)

(** The answer the API gives to each URL of a batch, in order: the calls
    take the answers of the network one by one (a call finding none left
    fails). *)
Fixpoint answers (urls : list string) (net : list http_result)
    : list (string * http_result) :=
  match urls with
  | [] => []
  | u :: urls' =>
      match net with
      | [] => (u, RequestException) :: answers urls' []
      | r :: net' => (u, r) :: answers urls' net'
      end
  end.

(** What [run_lighthouse] returns for an answer. *)
Definition fetched (cfg : config) (r : http_result) : option scores_t :=
  match r with
  | RequestException => None
  | Response categories_data =>
      Some (extract_scores categories_data (categories cfg))
  end.

(** The entry of [current_results] an answered URL gives rise to, if any. *)
Definition audited (cfg : config) (previous_scores : dict scores_t)
    (a : string * http_result) : list result :=
  match fetched cfg (snd a) with
  | Some scores =>
      if Dict.truthy scores then
        [ {| r_url := fst a; r_scores := scores;
             r_previous := get_or_empty previous_scores (fst a);
             r_changes :=
               compare_scores scores (get_or_empty previous_scores (fst a))
                              (threshold cfg) |} ]
      else []
  | None => []
  end.

(** [current_results] at the end of the audit loop. *)
Definition batch_results (cfg : config) (h : history) (net : list http_result)
    : list result :=
  flat_map (audited cfg (previous_scores_of (latest h)))
           (answers (valid_urls (urls cfg)) net).

(** [has_changes] at the end of the audit loop. *)
Definition some_changes (results : list result) : bool :=
  existsb (fun r => match r_changes r with _ :: _ => true | [] => false end)
          results.

(** The history that [load_history] returns, when it returns. *)
Definition stored_history (w : world) : option history :=
  match history_file w with
  | None => Some {| runs := [] |}
  | Some (Encoded h) => Some h
  | Some (Malformed _) => None
  end.

Definition email_configured (cfg : config) : bool :=
  nonempty (smtp_user cfg) && nonempty (smtp_password cfg)
  && nonempty (email_to cfg).

(** The SMTP session [main] opens for a batch, if any. *)
Definition mail_events (cfg : config) (run_date : string)
    (results : list result) : list event :=
  match results with
  | [] => []
  | _ :: _ =>
      if email_configured cfg then
        [ EvSmtp (if some_changes results then subject_alert else subject_quiet)
                 (format_email_html results run_date)
                 (format_email_text results run_date) ]
      else []
  end.

Definition set_smtp_up (b : bool) (w : world) : world :=
  mk_world (history_file w) (network w) b (now w) (log w).

(** The fetch of an answered URL failed: [run_lighthouse] returned [None]. *)
Definition failed (a : string * http_result) : bool :=
  match snd a with
  | RequestException => true
  | Response _ => false
  end.

(** The fetch returned a Score Record that [main] keeps ([if scores:]). *)
Definition usable (cfg : config) (a : string * http_result) : bool :=
  match fetched cfg (snd a) with
  | Some scores => Dict.truthy scores
  | None => false
  end.

(** The history in the file, if the file holds one. *)
Definition persisted (w : world) : option history :=
  match history_file w with
  | Some (Encoded h) => Some h
  | _ => None
  end.

(** ** Sample batches for the worked examples *)

Definition sample_cfg : config :=
  {| urls := ["https://a.example"; "https://b.example"; "https://c.example"];
     api_key := EmptyString;
     threshold := 5;
     smtp_host := "smtp.gmail.com";
     smtp_port := 587;
     smtp_user := "monitor";
     smtp_password := "secret";
     email_from := EmptyString;
     email_to := "ops@a.example";
     categories := ["performance"; "seo"] |}.

Definition sample_history : history :=
  {| runs :=
       [ {| run_date := "2026-01-01T06:00:00";
            run_results :=
              [ {| s_url := "https://a.example";
                   s_scores := [("performance", 85); ("seo", 90)] |} ] |} ] |}.

Definition sample_world (net : list http_result) (up : bool) : world :=
  {| history_file := Some (Encoded sample_history);
     network := net;
     smtp_up := up;
     now := "2026-01-08T06:00:00";
     log := [] |}.

(** One fetch fails, the other two return a Score Record. *)
Definition net_one_failure : list http_result :=
  [ Response [("performance", 79); ("seo", 90)];
    RequestException;
    Response [("performance", 70); ("seo", 80)] ].

(** One fetch fails and one answer holds none of the requested categories. *)
Definition net_failure_and_empty : list http_result :=
  [ RequestException;
    Response [];
    Response [("performance", 70); ("seo", 80)] ].

(** Every fetch fails. *)
Definition net_all_fail : list http_result :=
  [ RequestException; RequestException; RequestException ].

(** ** Derived notions used in the statements about the reports *)

(** Concatenation of a list of pieces. *)
Definition join (pieces : list string) : string :=
  fold_right String.append EmptyString pieces.

(** [p in s] *)
Fixpoint occurs (p s : string) : bool :=
  if String.prefix p s then true
  else
    match s with
    | EmptyString => false
    | String _ s' => occurs p s'
    end.

(** [s.lower()] *)
Fixpoint lower (s : string) : string :=
  match s with
  | EmptyString => EmptyString
  | String c s' => String (to_lower c) (lower s')
  end.

(** Whether a text names a score tier in any letter case. *)
Definition names_a_tier (s : string) : bool :=
  existsb (fun word => occurs word (lower s)) ["good"; "ok"; "poor"; "bad"].

(** The CSS class of the change indicator in the HTML report. *)
Definition change_class (score : Z) (prev_score : option Z) : string :=
  match prev_score with
  | Some p =>
      if score - p >? 0 then "improved"
      else if score - p <? 0 then "declined"
      else "no-change"
  | None => "no-change"
  end.

(** The text that the HTML report holds for one entry of the batch. *)
Definition html_entry (r : result) : string :=
  "<div class=" ++ dq ++ "url-section" ++ dq ++ "><h2>" ++ r_url r ++ "</h2>"
  ++ (match r_changes r with _ :: _ => html_alert | [] => EmptyString end)
  ++ html_table_head
  ++ join (map (html_row (r_previous r)) (Dict.items (r_scores r)))
  ++ "</table></div>".

(** The text that the plain report holds for one entry of the batch. *)
Definition text_entry (r : result) : string :=
  nl ++ r_url r ++ nl ++ times "-" (String.length (r_url r)) ++ nl ++ nl
  ++ (match r_changes r with _ :: _ => text_alert | [] => EmptyString end)
  ++ join (map (text_row (r_previous r)) (Dict.items (r_scores r)))
  ++ nl.

Definition text_head (run_date : string) : string :=
  "LIGHTHOUSE REPORT" ++ nl ++ times "=" 50 ++ nl
  ++ "Run Date: " ++ run_date ++ nl ++ nl.

(** A first audit of one URL, scoring 95 in one category. *)
Definition sample_first_run : list result :=
  [ {| r_url := "https://a.example";
       r_scores := [("seo", 95)];
       r_previous := [];
       r_changes := [] |} ].

(** ** Derived notions used in the further properties *)

(** The test of [compare_scores] on one item of [current]: the category has
    a baseline and the score moved by at least the threshold. *)
Definition significant (previous : scores_t) (threshold : Z)
    (item : string * Z) : bool :=
  match Dict.get previous (fst item) with
  | Some prev_score => Z.abs (snd item - prev_score) >=? threshold
  | None => false
  end.

(** The Change seen from the other side: the two scores exchanged. *)
Definition swap_change (ch : change) : change :=
  {| ch_category := ch_category ch;
     ch_previous := ch_current ch;
     ch_current := ch_previous ch;
     ch_diff := - ch_diff ch;
     ch_direction :=
       match ch_direction ch with
       | improved => declined
       | declined => improved
       end |}.

(** The score the API answer holds for a category: under its name or, if it
    is missing there, under its name without hyphens. *)
Definition api_score (categories_data : dict Z) (cat : string) : option Z :=
  match Dict.get categories_data cat with
  | Some v => Some v
  | None => Dict.get categories_data (remove_char "-" cat)
  end.

(** [x in xs] for a list of strings. *)
Definition mem_string (x : string) (xs : list string) : bool :=
  existsb (String.eqb x) xs.

(** The last entry of a run's results for a URL. *)
Definition last_entry (r : run) (url : string) : option stored_result :=
  find (fun x => String.eqb (s_url x) url) (rev (run_results r)).

(** The value of a Change's ["direction"], which is also the CSS class of
    the HTML change indicator. *)
Definition direction_name (d : direction_t) : string :=
  match d with
  | improved => "improved"
  | declined => "declined"
  end.

(** ** The configured URLs *)

(** [s.split(",")] *)
Fixpoint split_comma (s : string) : list string :=
  match s with
  | EmptyString => [EmptyString]
  | String c s' =>
      if Ascii.eqb c "," then EmptyString :: split_comma s'
      else
        match split_comma s' with
        | [] => [String c EmptyString]
        | piece :: pieces => String c piece :: pieces
        end
  end.

(** [",".join(pieces)] *)
Fixpoint join_comma (pieces : list string) : string :=
  match pieces with
  | [] => EmptyString
  | [piece] => piece
  | piece :: pieces' => piece ++ "," ++ join_comma pieces'
  end.

(** [c in s] for a character. *)
Fixpoint has_char (c : ascii) (s : string) : bool :=
  match s with
  | EmptyString => false
  | String c' s' => Ascii.eqb c' c || has_char c s'
  end.

(** The ["urls"] entry of the dictionary that [load_config] returns:
    [config.get("urls", os.environ.get("LIGHTHOUSE_URLS", "").split(",")
     if os.environ.get("LIGHTHOUSE_URLS") else \[\])], where [file_urls] is
    the ["urls"] entry of [config.json], if the file exists and has one, and
    [env_urls] the value of [LIGHTHOUSE_URLS], if it is set. *)
Definition load_config_urls (file_urls : option (list string))
    (env_urls : option string) : list string :=
  match file_urls with
  | Some urls => urls
  | None =>
      match env_urls with
      | Some s => if nonempty s then split_comma s else []
      | None => []
      end
  end.

(** Whether a string is made of ASCII characters only; on such strings
    the string operations above are those of Python. *)
Fixpoint is_ascii (s : string) : bool :=
  match s with
  | EmptyString => true
  | String c s' => (nat_of_ascii c <? 128)%nat && is_ascii s'
  end.

(** * Properties *)

(** ** Dictionaries *)

Module DictFacts.

Lemma get_In {V} (d : dict V) k v : Dict.get d k = Some v -> In (k, v) d.
Proof.
  induction d as [|[k' v'] d IH]; simpl; [discriminate|].
  destruct (String.eqb_spec k k') as [->|_].
  - intros [= ->]. now left.
  - intros H. right. now apply IH.
Qed.

Lemma get_None_not_In {V} (d : dict V) k :
  Dict.get d k = None -> ~ In k (Dict.keys d).
Proof.
  induction d as [|[k' v'] d IH]; simpl; [tauto|].
  destruct (String.eqb_spec k k') as [->|Hne]; [discriminate|].
  intros H [Heq|Hin]; [congruence | now apply IH].
Qed.

Lemma In_get {V} (d : dict V) k v :
  Dict.wf d -> In (k, v) d -> Dict.get d k = Some v.
Proof.
  unfold Dict.wf, Dict.keys.
  induction d as [|[k' v'] d IH]; simpl; [tauto|].
  intros Hnd [Heq|Hin].
  - inversion Heq; subst. now rewrite String.eqb_refl.
  - inversion Hnd as [|? ? Hnotin Hnd']; subst.
    destruct (String.eqb_spec k k') as [->|_].
    + exfalso. apply Hnotin. now apply (in_map fst _ (k', v)).
    + now apply IH.
Qed.

Lemma keys_set {V} (d : dict V) k v :
  Dict.keys (Dict.set d k v)
  = if Dict.mem d k then Dict.keys d else (Dict.keys d ++ [k])%list.
Proof.
  unfold Dict.mem, Dict.keys.
  induction d as [|[k' v'] d IH]; simpl; [reflexivity|].
  destruct (String.eqb_spec k k') as [->|Hne]; simpl; [reflexivity|].
  rewrite IH. now destruct (Dict.get d k).
Qed.

Lemma wf_empty {V} : Dict.wf (@Dict.empty V).
Proof. constructor. Qed.

Lemma wf_set {V} (d : dict V) k v : Dict.wf d -> Dict.wf (Dict.set d k v).
Proof.
  unfold Dict.wf. rewrite keys_set. unfold Dict.mem.
  destruct (Dict.get d k) eqn:E; [trivial|].
  intros Hnd. apply NoDup_app; [assumption | repeat constructor; simpl; tauto |].
  intros x Hin [<-|[]]. now apply (get_None_not_In d k).
Qed.

Lemma truthy_set {V} (d : dict V) k v : Dict.truthy (Dict.set d k v) = true.
Proof.
  destruct d as [|[k' v'] d]; simpl; [|destruct (String.eqb k k')]; reflexivity.
Qed.

End DictFacts.

(** The Score Records that [run_lighthouse] builds are dictionaries. *)
Lemma extract_scores_wf (d : dict Z) (cats : list string) :
  Dict.wf (extract_scores d cats).
Proof.
  unfold extract_scores.
  assert (H : forall s, Dict.wf s -> Dict.wf (fold_left (extract_score d) cats s)).
  { induction cats as [|c cats IH]; intros s Hs; [exact Hs|].
    simpl. apply IH. unfold extract_score.
    repeat match goal with
           | |- context [match ?x with _ => _ end] => destruct x
           end; trivial; now apply DictFacts.wf_set. }
  apply H, DictFacts.wf_empty.
Qed.

(** ** Accumulating loops *)

Lemma fold_left_app_list {A B} (f : A -> list B) (xs : list A) (acc : list B) :
  fold_left (fun acc x => (acc ++ f x)%list) xs acc
  = (acc ++ flat_map f xs)%list.
Proof.
  revert acc. induction xs as [|x xs IH]; intros acc; simpl.
  - now rewrite app_nil_r.
  - rewrite IH. now rewrite app_assoc.
Qed.

(** ** Change detection *)

Lemma compare_scores_flat_map current previous t :
  compare_scores current previous t
  = flat_map (compare_item previous t) current.
Proof. unfold compare_scores, Dict.items. now rewrite fold_left_app_list. Qed.

(** What one item of [current] contributes. *)
Lemma compare_item_In previous t c cur ch :
  In ch (compare_item previous t (c, cur)) <->
  exists prev, Dict.get previous c = Some prev /\ Z.abs (cur - prev) >= t /\
    ch = {| ch_category := c; ch_previous := prev; ch_current := cur;
            ch_diff := cur - prev;
            ch_direction := if cur - prev >? 0 then improved else declined |}.
Proof.
  unfold compare_item.
  destruct (Dict.get previous c) as [prev|].
  - destruct (Z.geb_spec (Z.abs (cur - prev)) t) as [Hge|Hlt]; simpl.
    + split.
      * intros [<-|[]]. exists prev. repeat split; trivial. lia.
      * intros (p & [= <-] & _ & ->). now left.
    + split; [tauto|]. intros (p & [= <-] & Hge & _). lia.
  - simpl. split; [tauto|]. intros (p & Hp & _). discriminate.
Qed.

Lemma compare_scores_In current previous t ch :
  In ch (compare_scores current previous t) <->
  exists c cur prev,
    In (c, cur) current /\ Dict.get previous c = Some prev /\
    Z.abs (cur - prev) >= t /\
    ch = {| ch_category := c; ch_previous := prev; ch_current := cur;
            ch_diff := cur - prev;
            ch_direction := if cur - prev >? 0 then improved else declined |}.
Proof.
  rewrite compare_scores_flat_map, in_flat_map. split.
  - intros ([c cur] & Hin & Hch). apply compare_item_In in Hch.
    destruct Hch as (prev & ? & ? & ?). now exists c, cur, prev.
  - intros (c & cur & prev & Hin & ? & ? & ?). exists (c, cur). split; trivial.
    apply compare_item_In. now exists prev.
Qed.

(** C1.  [compare_scores] emits a Change for category [c] exactly when [c]
    is a key of [current], [c] is a key of [previous] and
    [abs(current\[c\] - previous\[c\])] is at least the threshold (the bound
    is inclusive); the Change carries both scores and their difference.  A
    category that [previous] lacks yields no Change.  This holds for every
    integer threshold, so in particular for every threshold [t >= 0]. *)
Theorem compare_scores_emits_iff (current previous : scores_t) (t : Z)
    (c : string) :
  Dict.wf current ->
  ((exists ch, In ch (compare_scores current previous t) /\ ch_category ch = c)
   <->
   (exists cur prev,
      Dict.get current c = Some cur /\ Dict.get previous c = Some prev /\
      Z.abs (cur - prev) >= t))
  /\ (forall ch, In ch (compare_scores current previous t) ->
        ch_category ch = c ->
        Dict.get current c = Some (ch_current ch) /\
        Dict.get previous c = Some (ch_previous ch) /\
        ch_diff ch = ch_current ch - ch_previous ch)
  /\ (Dict.get previous c = None ->
        forall ch, In ch (compare_scores current previous t) ->
          ch_category ch <> c).
Proof.
  intros Hwf. split; [split|split].
  - intros (ch & Hin & Hc). apply compare_scores_In in Hin.
    destruct Hin as (c' & cur & prev & Hin & Hprev & Hge & ->).
    simpl in Hc. subst c'. exists cur, prev.
    split; [now apply DictFacts.In_get | now split].
  - intros (cur & prev & Hcur & Hprev & Hge).
    exists {| ch_category := c; ch_previous := prev; ch_current := cur;
              ch_diff := cur - prev;
              ch_direction := if cur - prev >? 0 then improved else declined |}.
    split; [|reflexivity].
    apply compare_scores_In. exists c, cur, prev.
    split; [now apply DictFacts.get_In | now repeat split].
  - intros ch Hin Hc. apply compare_scores_In in Hin.
    destruct Hin as (c' & cur & prev & Hin & Hprev & Hge & ->).
    simpl in *. subst c'. split; [now apply DictFacts.In_get | now split].
  - intros Hnone ch Hin Hc. apply compare_scores_In in Hin.
    destruct Hin as (c' & cur & prev & Hin & Hprev & Hge & ->).
    simpl in Hc. subst c'. congruence.
Qed.

Lemma compare_scores_emits_iff_witness :
  Dict.wf [("performance", 79); ("seo", 90)] /\
  ((exists ch,
      In ch (compare_scores [("performance", 79); ("seo", 90)]
                            [("performance", 85)] 5)
      /\ ch_category ch = "performance")
   <->
   (exists cur prev,
      Dict.get [("performance", 79); ("seo", 90)] "performance" = Some cur /\
      Dict.get [("performance", 85)] "performance" = Some prev /\
      Z.abs (cur - prev) >= 5)).
Proof.
  assert (Hwf : Dict.wf [("performance", 79); ("seo", 90)]).
  { unfold Dict.wf. simpl. repeat constructor; simpl; intuition discriminate. }
  split; [exact Hwf|].
  exact (proj1 (compare_scores_emits_iff
                  [("performance", 79); ("seo", 90)] [("performance", 85)]
                  5 "performance" Hwf)).
Defined.

(** C2 (as amended).  For every Change that [compare_scores] emits with a
    difference (current minus previous) other than 0, the label is
    [improved] exactly when the difference is strictly positive and
    [declined] exactly when it is strictly negative.  For every strictly
    positive threshold no emitted Change has difference 0.  (With threshold
    0 the inclusive bound lets a Change of difference 0 through.) *)
Theorem direction_label (current previous : scores_t) (t : Z) (ch : change) :
  In ch (compare_scores current previous t) ->
  ch_diff ch = ch_current ch - ch_previous ch /\
  (ch_diff ch <> 0 ->
     (ch_direction ch = improved <-> ch_diff ch > 0) /\
     (ch_direction ch = declined <-> ch_diff ch < 0)) /\
  (0 < t -> ch_diff ch <> 0).
Proof.
  intros Hin. apply compare_scores_In in Hin.
  destruct Hin as (c & cur & prev & _ & _ & Hge & ->). simpl.
  destruct (Z.gtb_spec (cur - prev) 0) as [Hpos|Hnpos].
  - repeat split; intros; try lia; try discriminate.
  - repeat split; intros; try lia; try discriminate; try reflexivity.
Qed.

Lemma direction_label_witness :
  In sample_change
     (compare_scores [("performance", 79)] [("performance", 85)] 5) /\
  (ch_direction sample_change = declined <-> ch_diff sample_change < 0) /\
  ch_diff sample_change <> 0.
Proof.
  assert (Hin : In sample_change
                   (compare_scores [("performance", 79)]
                                   [("performance", 85)] 5)).
  { vm_compute. left. reflexivity. }
  assert (Ht : 0 < 5) by lia.
  pose proof (direction_label _ _ 5 sample_change Hin) as (_ & Hlabel & Hnz).
  exact (conj Hin (conj (proj2 (Hlabel (Hnz Ht))) (Hnz Ht))).
Defined.

(** C2 as stated fails at threshold 0: a score equal to its baseline is
    emitted as a Change of difference 0, labelled [declined]. *)
Lemma direction_label_counterexample :
  compare_scores [("performance", 85)] [("performance", 85)] 0
  = [ {| ch_category := "performance"; ch_previous := 85; ch_current := 85;
         ch_diff := 0; ch_direction := declined |} ]
  /\ ~ (forall current previous t ch,
          0 <= t -> In ch (compare_scores current previous t) ->
          (ch_direction ch = improved <-> ch_diff ch > 0) /\
          (ch_direction ch = declined <-> ch_diff ch < 0) /\
          ch_diff ch <> 0).
Proof.
  split; [reflexivity|].
  intros H.
  destruct (H [("performance", 85)] [("performance", 85)] 0
              {| ch_category := "performance"; ch_previous := 85;
                 ch_current := 85; ch_diff := 0; ch_direction := declined |})
    as (_ & _ & Hne).
  - lia.
  - left. reflexivity.
  - now apply Hne.
Qed.

(** C3 (as amended).  For every Score Record [a] and every strictly
    positive threshold, comparing [a] against itself yields no Change. *)
Theorem compare_self_empty (a : scores_t) (t : Z) :
  Dict.wf a -> 0 < t -> compare_scores a a t = [].
Proof.
  intros Hwf Ht.
  destruct (compare_scores a a t) as [|ch l] eqn:E; [reflexivity|].
  assert (Hin : In ch (compare_scores a a t)) by (rewrite E; now left).
  apply compare_scores_In in Hin.
  destruct Hin as (c & cur & prev & Hin & Hprev & Hge & _).
  apply (DictFacts.In_get _ _ _ Hwf) in Hin.
  assert (cur = prev) by congruence. subst. lia.
Qed.

Lemma compare_self_empty_witness :
  Dict.wf [("performance", 85); ("seo", 40)] /\ 0 < 5 /\
  compare_scores [("performance", 85); ("seo", 40)]
                 [("performance", 85); ("seo", 40)] 5 = [].
Proof.
  assert (Hwf : Dict.wf [("performance", 85); ("seo", 40)]).
  { unfold Dict.wf. simpl. repeat constructor; simpl; intuition discriminate. }
  assert (Ht : 0 < 5) by lia.
  exact (conj Hwf (conj Ht (compare_self_empty _ 5 Hwf Ht))).
Defined.

(** C3 as stated fails at threshold 0: the self-comparison of a non-empty
    record reports each of its categories. *)
Lemma compare_self_counterexample :
  Dict.wf [("performance", 85)] /\ 0 <= 0 /\
  compare_scores [("performance", 85)] [("performance", 85)] 0 <> [].
Proof.
  split; [|split].
  - unfold Dict.wf. simpl. repeat constructor. simpl. tauto.
  - lia.
  - discriminate.
Qed.

(** ** History retention *)

Lemma append_run_runs (h : history) (r : run) :
  runs (append_run h r)
  = skipn (List.length (runs h ++ [r]) - 52) (runs h ++ [r]).
Proof.
  unfold append_run.
  destruct (Nat.ltb_spec 52 (List.length (runs h ++ [r]))) as [Hgt|Hle]; simpl.
  - reflexivity.
  - replace (List.length (runs h ++ [r]) - 52)%nat with 0%nat by lia.
    reflexivity.
Qed.

Lemma append_run_length (h : history) (r : run) :
  (List.length (runs (append_run h r)) <= 52)%nat.
Proof. rewrite append_run_runs, length_skipn. lia. Qed.

Lemma last_skipn {A} (l : list A) (n : nat) (d : A) :
  (n < List.length l)%nat -> last (skipn n l) d = last l d.
Proof.
  revert n. induction l as [|x l IH]; intros n Hn; simpl in Hn; [lia|].
  destruct n as [|n]; [reflexivity|].
  simpl skipn. rewrite IH by lia.
  destruct l; [simpl in Hn; lia | reflexivity].
Qed.

Lemma latest_append_run (h : history) (r : run) :
  latest (append_run h r) = Some r.
Proof.
  unfold latest. rewrite append_run_runs.
  set (l := (runs h ++ [r])%list).
  assert (Hlen : (List.length l - 52 < List.length l)%nat).
  { unfold l. rewrite length_app. simpl. lia. }
  destruct (skipn (List.length l - 52) l) as [|x xs] eqn:E.
  - apply (f_equal (@List.length run)) in E. rewrite length_skipn in E.
    simpl in E. lia.
  - f_equal.
    assert (Hl : last xs x = last (x :: xs) x) by (destruct xs; reflexivity).
    rewrite Hl, <- E, last_skipn by exact Hlen.
    unfold l. apply last_last.
Qed.

(** Appending a sequence of runs keeps its last 52, whatever was cut
    before. *)
Lemma fold_append_run (rs pre : list run) (h : history) :
  runs h = skipn (List.length pre - 52) pre ->
  runs (fold_left append_run rs h)
  = skipn (List.length (pre ++ rs) - 52) (pre ++ rs).
Proof.
  revert pre h. induction rs as [|r rs IH]; intros pre h Hh; simpl.
  - now rewrite app_nil_r.
  - replace (pre ++ r :: rs)%list with ((pre ++ [r]) ++ rs)%list
      by now rewrite <- app_assoc.
    apply IH. rewrite append_run_runs, Hh.
    assert (Happ : (skipn (List.length pre - 52) pre ++ [r])%list
                   = skipn (List.length pre - 52) (pre ++ [r])).
    { rewrite skipn_app.
      replace (List.length pre - 52 - List.length pre)%nat with 0%nat by lia.
      reflexivity. }
    rewrite Happ, skipn_skipn. f_equal.
    rewrite length_skipn, !length_app. simpl. lia.
Qed.

Lemma history_eq (h : history) (l : list run) : runs h = l -> h = {| runs := l |}.
Proof. destruct h as [l']. simpl. now intros ->. Qed.

(** ** The audit loop and [main] *)

Lemma audit_url_spec cfg ps res flag url w :
  audit_url cfg ps (res, flag) url w
  = (Ret ((res ++ audited cfg ps (url, hd RequestException (network w)))%list,
          flag || some_changes
                    (audited cfg ps (url, hd RequestException (network w)))),
     mk_world (history_file w) (tl (network w)) (smtp_up w) (now w)
              (log w ++ [EvGet url])).
Proof.
  destruct w as [f net up t l].
  unfold audit_url, run_lighthouse, requests_get, bind, audited, fetched.
  cbn [network history_file smtp_up now log hd tl snd fst].
  destruct net as [|[|d] net]; cbn -[extract_scores compare_scores];
    unfold ret, add_log, set_network; cbn -[extract_scores compare_scores];
    try (rewrite app_nil_r, orb_false_r; reflexivity).
  destruct (Dict.truthy (extract_scores d (categories cfg)));
    cbn -[extract_scores compare_scores].
  - destruct (compare_scores _ _ _); cbn;
      [rewrite orb_false_r | rewrite orb_true_r]; reflexivity.
  - rewrite app_nil_r, orb_false_r. reflexivity.
Qed.

Lemma answers_cons u us net :
  answers (u :: us) net = (u, hd RequestException net) :: answers us (tl net).
Proof. destruct net; reflexivity. Qed.

Lemma skipn_S_tl {A} n (l : list A) : skipn (S n) l = skipn n (tl l).
Proof. destruct l; simpl; [now rewrite skipn_nil | reflexivity]. Qed.

Lemma some_changes_app l1 l2 :
  some_changes (l1 ++ l2) = some_changes l1 || some_changes l2.
Proof. apply existsb_app. Qed.

Lemma audit_loop_spec cfg ps us : forall res flag w,
  for_each us (audit_url cfg ps) (res, flag) w
  = (Ret ((res ++ flat_map (audited cfg ps) (answers us (network w)))%list,
          flag || some_changes
                    (flat_map (audited cfg ps) (answers us (network w)))),
     mk_world (history_file w) (skipn (List.length us) (network w))
              (smtp_up w) (now w) (log w ++ map EvGet us)).
Proof.
  induction us as [|u us IH]; intros res flag w.
  - destruct w. simpl. unfold ret. simpl.
    now rewrite !app_nil_r, orb_false_r.
  - cbn [for_each]. unfold bind at 1. rewrite audit_url_spec.
    rewrite IH. cbn [network history_file smtp_up now log List.length].
    rewrite answers_cons, skipn_S_tl. cbn [flat_map map].
    rewrite some_changes_app, <- !app_assoc, orb_assoc. reflexivity.
Qed.

Lemma valid_urls_nonempty us : valid_urls us <> [] -> us <> [].
Proof. intros H ->. now apply H. Qed.

(** The complete effect of a run of [main] that gets past its start-up
    checks. *)
Lemma main_spec cfg w h :
  valid_urls (urls cfg) <> [] ->
  stored_history w = Some h ->
  main cfg w
  = (Ret tt,
     mk_world
       (Some (Encoded (append_run h
          (new_run (now w) (batch_results cfg h (network w))))))
       (skipn (List.length (valid_urls (urls cfg))) (network w))
       (smtp_up w) (now w)
       (log w ++ map EvGet (valid_urls (urls cfg))
          ++ [EvSave (append_run h
                (new_run (now w) (batch_results cfg h (network w))))]
          ++ mail_events cfg (now w) (batch_results cfg h (network w)))).
Proof.
  unfold main, batch_results.
  destruct (urls cfg) as [|u0 us0] eqn:Eu; [intros H; now elim H|].
  destruct (valid_urls (u0 :: us0)) as [|v vs] eqn:Ev; [intros H; now elim H|].
  cbv beta iota. rewrite <- Ev.
  generalize (valid_urls (u0 :: us0)). clear. intros us _ Hh.
  assert (Hload : load_history w = (Ret h, w)).
  { unfold load_history, stored_history in *.
    destruct (history_file w) as [[raw|h0]|]; congruence. }
  unfold bind at 1. rewrite Hload.
  unfold bind at 1. unfold bind at 1.
  rewrite audit_loop_spec. cbn [app orb].
  set (results := flat_map _ _).
  set (h' := append_run h _).
  unfold bind at 1, save_history, add_log, set_history_file.
  cbn [network history_file smtp_up now log].
  unfold mail_events.
  destruct results as [|r rs] eqn:Er.
  - unfold ret. now rewrite ?app_nil_r, <- ?app_assoc.
  - rewrite <- Er. clear Er.
    unfold bind, send_email. fold (email_configured cfg).
    destruct (email_configured cfg); cbn [negb].
    + unfold try_except, bind, smtp_deliver, bind, emit, add_log, ret.
      cbn [network history_file smtp_up now log].
      destruct (smtp_up w); now rewrite <- ?app_assoc.
    + unfold ret. now rewrite ?app_nil_r, <- ?app_assoc.
Qed.

(** ** The history kept by [main] *)

(** C4.  After every append the history holds at most 52 runs and the
    "latest run" lookup returns the run just appended; a full history loses
    its oldest run to the append, a shorter one loses none.  Appending any
    sequence of runs to an empty history leaves its last 52 runs in order;
    in particular 53 runs leave runs 2 to 53.  The history file that a run
    of [main] leaves is the loaded history with the new Run appended in
    this way. *)
Theorem history_bounded_fifo :
  (forall h r, (List.length (runs (append_run h r)) <= 52)%nat)
  /\ (forall h rs r, latest (fold_left append_run (rs ++ [r]) h) = Some r)
  /\ (forall h r,
        (List.length (runs h) < 52)%nat ->
        runs (append_run h r) = (runs h ++ [r])%list)
  /\ (forall h r,
        List.length (runs h) = 52%nat ->
        runs (append_run h r) = (tl (runs h) ++ [r])%list)
  /\ (forall rs,
        fold_left append_run rs {| runs := [] |}
        = {| runs := skipn (List.length rs - 52) rs |})
  /\ (forall r0 rs,
        List.length rs = 52%nat ->
        fold_left append_run (r0 :: rs) {| runs := [] |} = {| runs := rs |})
  /\ (forall cfg w h,
        valid_urls (urls cfg) <> [] ->
        stored_history w = Some h ->
        exists r,
          persisted (snd (main cfg w)) = Some (append_run h r) /\
          latest (append_run h r) = Some r /\
          run_date r = now w /\
          (List.length (runs (append_run h r)) <= 52)%nat).
Proof.
  assert (Hfold : forall rs,
             fold_left append_run rs {| runs := [] |}
             = {| runs := skipn (List.length rs - 52) rs |}).
  { intros rs. apply history_eq.
    now rewrite (fold_append_run rs [] {| runs := [] |}). }
  split; [|split; [|split; [|split; [|split; [|split]]]]].
  - apply append_run_length.
  - intros h rs r. rewrite fold_left_app. simpl. apply latest_append_run.
  - intros h r Hlen. rewrite append_run_runs, length_app. simpl.
    now replace (List.length (runs h) + 1 - 52)%nat with 0%nat by lia.
  - intros h r Hlen. rewrite append_run_runs, length_app, Hlen. simpl.
    destruct (runs h); [discriminate | reflexivity].
  - exact Hfold.
  - intros r0 rs Hlen. rewrite Hfold. simpl List.length. rewrite Hlen.
    reflexivity.
  - intros cfg w h Hurls Hh. rewrite (main_spec cfg w h Hurls Hh).
    exists (new_run (now w) (batch_results cfg h (network w))).
    repeat split; [apply latest_append_run | apply append_run_length].
Qed.

Lemma history_bounded_fifo_witness :
  List.length (map sample_run (seq 1 52)) = 52%nat /\
  fold_left append_run (map sample_run (seq 0 53)) {| runs := [] |}
  = {| runs := map sample_run (seq 1 52) |}.
Proof.
  split; [reflexivity|].
  apply (proj1 (proj2 (proj2 (proj2 (proj2 (proj2 history_bounded_fifo)))))
               (sample_run 0) (map sample_run (seq 1 52))).
  reflexivity.
Defined.

(** ** Fetch failures *)

Lemma audited_usable cfg ps a :
  List.length (audited cfg ps a) = if usable cfg a then 1%nat else 0%nat.
Proof.
  unfold audited, usable. destruct (fetched cfg (snd a)) as [s|]; [|reflexivity].
  now destruct (Dict.truthy s).
Qed.

Lemma audited_url cfg ps a r : In r (audited cfg ps a) -> r_url r = fst a.
Proof.
  unfold audited. destruct (fetched cfg (snd a)) as [s|]; [|intros []].
  destruct (Dict.truthy s); [|intros []]. now intros [<-|[]].
Qed.

Lemma audited_failed cfg ps a : failed a = true -> audited cfg ps a = [].
Proof.
  unfold failed, audited, fetched. now destruct (snd a).
Qed.

Lemma failed_not_usable cfg a : failed a = true -> usable cfg a = false.
Proof. unfold failed, usable, fetched. now destruct (snd a). Qed.

Lemma length_flat_map_audited cfg ps ans :
  List.length (flat_map (audited cfg ps) ans)
  = List.length (filter (usable cfg) ans).
Proof.
  induction ans as [|a ans IH]; [reflexivity|].
  cbn [flat_map filter]. rewrite length_app, audited_usable, IH.
  now destruct (usable cfg a).
Qed.

Lemma filter_length_split {A} (f : A -> bool) (l : list A) :
  (List.length (filter f l) + List.length (filter (fun x => negb (f x)) l)
   = List.length l)%nat.
Proof.
  induction l as [|x l IH]; [reflexivity|]. simpl.
  destruct (f x); simpl; lia.
Qed.

Lemma answers_length us net : List.length (answers us net) = List.length us.
Proof.
  revert net. induction us as [|u us IH]; intros net; [reflexivity|].
  rewrite answers_cons. simpl. now rewrite IH.
Qed.

Lemma answers_urls us net : map fst (answers us net) = us.
Proof.
  revert net. induction us as [|u us IH]; intros net; [reflexivity|].
  rewrite answers_cons. simpl. now rewrite IH.
Qed.

(** C5 (as amended).  In a run of [main] over a batch of URLs, a URL whose
    fetch fails is skipped: the batch results are those of the same batch
    without it, the run completes, the Run appended to the history holds one
    Score Record per URL whose fetch returned a non-empty record, and a URL
    all of whose fetches failed appears neither in that Run nor in the
    results handed to the report.  A batch of 3 URLs with 1 failed fetch
    and 2 fetches returning non-empty Score Records yields a Run of exactly
    2 Score Records. *)
Theorem failed_fetch_skipped (cfg : config) (w : world) (h : history) :
  valid_urls (urls cfg) <> [] ->
  stored_history w = Some h ->
  let ans := answers (valid_urls (urls cfg)) (network w) in
  let ps := previous_scores_of (latest h) in
  let results := batch_results cfg h (network w) in
  let appended := new_run (now w) results in
  fst (main cfg w) = Ret tt
  /\ persisted (snd (main cfg w)) = Some (append_run h appended)
  /\ latest (append_run h appended) = Some appended
  /\ (forall pre a post,
        ans = (pre ++ a :: post)%list -> failed a = true ->
        results = flat_map (audited cfg ps) (pre ++ post))
  /\ List.length (run_results appended)
     = List.length (filter (usable cfg) ans)
  /\ (forall u,
        (forall a, In a ans -> fst a = u -> failed a = true) ->
        ~ In u (map s_url (run_results appended)) /\
        ~ In u (map r_url results))
  /\ (List.length ans = 3%nat ->
      List.length (filter failed ans) = 1%nat ->
      (forall a, In a ans -> failed a = false -> usable cfg a = true) ->
      List.length (run_results appended) = 2%nat).
Proof.
  intros Hurls Hh ans ps results appended.
  rewrite (main_spec cfg w h Hurls Hh). cbn [fst snd persisted history_file].
  assert (Hlen : List.length (run_results appended)
                 = List.length (filter (usable cfg) ans)).
  { unfold appended, new_run. cbn [run_results]. rewrite length_map.
    apply length_flat_map_audited. }
  assert (Hurl : forall u, In u (map r_url results) ->
                   exists a, In a ans /\ fst a = u /\ usable cfg a = true).
  { intros u Hin. apply in_map_iff in Hin. destruct Hin as (r & <- & Hr).
    apply in_flat_map in Hr. destruct Hr as (a & Ha & Hr).
    exists a. split; [exact Ha|].
    split; [symmetry; exact (audited_url cfg _ a r Hr)|].
    pose proof (audited_usable cfg (previous_scores_of (latest h)) a) as Hu.
    destruct (usable cfg a); [reflexivity|].
    destruct (audited cfg (previous_scores_of (latest h)) a); [contradiction|discriminate]. }
  split; [reflexivity|]. split; [reflexivity|].
  split; [apply latest_append_run|].
  split; [|split; [exact Hlen|split]].
  - intros pre a post Hans Hfail. unfold results, batch_results. fold ans ps.
    rewrite Hans, !flat_map_app. cbn [flat_map].
    now rewrite (audited_failed cfg ps a Hfail).
  - intros u Hall.
    assert (Hno : ~ In u (map r_url results)).
    { intros Hin. destruct (Hurl u Hin) as (a & Ha & Hu & Hus).
      rewrite (failed_not_usable cfg a (Hall a Ha Hu)) in Hus. discriminate. }
    split; [|exact Hno].
    unfold appended, new_run. cbn [run_results].
    rewrite map_map. exact Hno.
  - intros H3 H1 Hok. rewrite Hlen.
    assert (Hsame : filter (usable cfg) ans
                    = filter (fun a => negb (failed a)) ans).
    { apply filter_ext_in. intros a Ha.
      destruct (failed a) eqn:Ef; cbn [negb].
      - now apply failed_not_usable.
      - now apply Hok. }
    rewrite Hsame.
    pose proof (filter_length_split failed ans). lia.
Qed.

Lemma failed_fetch_skipped_witness :
  List.length
    (run_results
       (new_run (now (sample_world net_one_failure true))
          (batch_results sample_cfg sample_history net_one_failure)))
  = 2%nat.
Proof.
  assert (Hurls : valid_urls (urls sample_cfg) <> []) by (vm_compute; discriminate).
  assert (Hh : stored_history (sample_world net_one_failure true)
               = Some sample_history) by reflexivity.
  refine (proj2 (proj2 (proj2 (proj2 (proj2 (proj2
            (failed_fetch_skipped sample_cfg
               (sample_world net_one_failure true) sample_history
               Hurls Hh)))))) _ _ _).
  - reflexivity.
  - reflexivity.
  - vm_compute. intros a [<-|[<-|[<-|[]]]]; intros; congruence.
Defined.

(** C5 as stated fails when another fetch of the batch returns an empty
    record: of 3 URLs with exactly 1 failed fetch, the appended Run holds
    1 Score Record, not 2. *)
Lemma failed_fetch_counterexample :
  List.length (answers (valid_urls (urls sample_cfg)) net_failure_and_empty)
  = 3%nat
  /\ List.length
       (filter failed
          (answers (valid_urls (urls sample_cfg)) net_failure_and_empty))
     = 1%nat
  /\ fst (main sample_cfg (sample_world net_failure_and_empty true)) = Ret tt
  /\ option_map latest
       (persisted (snd (main sample_cfg
                          (sample_world net_failure_and_empty true))))
     = Some (Some
         {| run_date := "2026-01-08T06:00:00";
            run_results :=
              [ {| s_url := "https://c.example";
                   s_scores := [("performance", 70); ("seo", 80)] |} ] |}).
Proof. repeat split; vm_compute; reflexivity. Qed.

(** ** A batch without any successful fetch *)

Lemma all_failed_batch cfg h net :
  forallb (fun a => negb (usable cfg a))
          (answers (valid_urls (urls cfg)) net) = true ->
  batch_results cfg h net = [].
Proof.
  unfold batch_results. generalize (previous_scores_of (latest h)) as ps.
  generalize (answers (valid_urls (urls cfg)) net) as ans.
  induction ans as [|a ans IH]; intros ps Hall; [reflexivity|].
  cbn [forallb] in Hall. apply andb_true_iff in Hall. destruct Hall as [Ha Hall].
  cbn [flat_map]. rewrite (IH ps Hall), app_nil_r.
  pose proof (audited_usable cfg ps a) as Hl.
  destruct (usable cfg a); [discriminate|].
  now destruct (audited cfg ps a).
Qed.

(** C6 (as amended).  A batch in which no fetch succeeds completes without
    raising and attempts no notification, but its append stage is not a
    no-op: a Run without any Score Record is appended to the history (under
    the 52-run cut) and saved, and it is that Run the next "latest run"
    lookup returns. *)
Theorem all_failed_appends_empty_run (cfg : config) (w : world) (h : history) :
  valid_urls (urls cfg) <> [] ->
  stored_history w = Some h ->
  forallb (fun a => negb (usable cfg a))
          (answers (valid_urls (urls cfg)) (network w)) = true ->
  fst (main cfg w) = Ret tt /\
  persisted (snd (main cfg w))
  = Some (append_run h {| run_date := now w; run_results := [] |}) /\
  latest (append_run h {| run_date := now w; run_results := [] |})
  = Some {| run_date := now w; run_results := [] |} /\
  log (snd (main cfg w))
  = (log w ++ map EvGet (valid_urls (urls cfg))
       ++ [EvSave (append_run h {| run_date := now w; run_results := [] |})])%list.
Proof.
  intros Hurls Hh Hall. rewrite (main_spec cfg w h Hurls Hh).
  rewrite (all_failed_batch cfg h (network w) Hall).
  cbn [fst snd persisted history_file log mail_events].
  repeat split. apply latest_append_run.
Qed.

Lemma all_failed_appends_empty_run_witness :
  persisted (snd (main sample_cfg (sample_world net_all_fail true)))
  = Some (append_run sample_history
            {| run_date := now (sample_world net_all_fail true);
               run_results := [] |}).
Proof.
  assert (Hurls : valid_urls (urls sample_cfg) <> []) by (vm_compute; discriminate).
  assert (Hh : stored_history (sample_world net_all_fail true)
               = Some sample_history) by reflexivity.
  assert (Hall : forallb (fun a => negb (usable sample_cfg a))
                   (answers (valid_urls (urls sample_cfg))
                      (network (sample_world net_all_fail true))) = true)
    by reflexivity.
  exact (proj1 (proj2 (all_failed_appends_empty_run sample_cfg
                         (sample_world net_all_fail true) sample_history
                         Hurls Hh Hall))).
Defined.

(** C6 as stated fails: after a batch whose three fetches all fail, the
    history file, which held one run, holds two, the second without any
    result. *)
Lemma all_failed_batch_counterexample :
  fst (main sample_cfg (sample_world net_all_fail true)) = Ret tt
  /\ persisted (sample_world net_all_fail true) = Some sample_history
  /\ persisted (snd (main sample_cfg (sample_world net_all_fail true)))
     = Some {| runs :=
                 (runs sample_history
                  ++ [ {| run_date := "2026-01-08T06:00:00";
                          run_results := [] |} ])%list |}
  /\ persisted (snd (main sample_cfg (sample_world net_all_fail true)))
     <> persisted (sample_world net_all_fail true).
Proof. repeat split; try (vm_compute; reflexivity). vm_compute. discriminate. Qed.

(** ** Loading the history *)

(** C7 (as amended).  Loading the history when the file is missing yields
    the empty history; when the file holds text that is not well-formed the
    decoding error is raised, by [load_history] and so by [main], which then
    stops before any fetch and leaves the world as it was. *)
Theorem load_history_missing_or_corrupt (w : world) :
  load_history (set_history_file None w)
  = (Ret {| runs := [] |}, set_history_file None w)
  /\ (forall raw,
        load_history (set_history_file (Some (Malformed raw)) w)
        = (Raise JSONDecodeError, set_history_file (Some (Malformed raw)) w))
  /\ (forall raw cfg,
        valid_urls (urls cfg) <> [] ->
        main cfg (set_history_file (Some (Malformed raw)) w)
        = (Raise JSONDecodeError, set_history_file (Some (Malformed raw)) w)).
Proof.
  repeat split.
  intros raw cfg. unfold main.
  destruct (urls cfg) as [|u0 us0]; [intros H; now elim H|].
  destruct (valid_urls (u0 :: us0)) as [|v vs]; [intros H; now elim H|].
  reflexivity.
Qed.

Lemma load_history_missing_or_corrupt_witness :
  valid_urls (urls sample_cfg) <> [] /\
  main sample_cfg
       (set_history_file (Some (Malformed "{")) (sample_world [] true))
  = (Raise JSONDecodeError,
     set_history_file (Some (Malformed "{")) (sample_world [] true)).
Proof.
  assert (Hurls : valid_urls (urls sample_cfg) <> []) by (vm_compute; discriminate).
  split; [exact Hurls|].
  exact (proj2 (proj2 (load_history_missing_or_corrupt (sample_world [] true)))
               "{" sample_cfg Hurls).
Defined.

(** C7 as stated fails for a corrupt file: loading raises instead of
    yielding the empty history. *)
Lemma load_history_corrupt_counterexample :
  fst (load_history
         (set_history_file (Some (Malformed "{")) (sample_world [] true)))
  = Raise JSONDecodeError
  /\ fst (load_history
            (set_history_file (Some (Malformed "{")) (sample_world [] true)))
     <> Ret {| runs := [] |}.
Proof. split; [reflexivity | discriminate]. Qed.

(** ** Notification *)

Lemma main_start_up cfg w :
  (valid_urls (urls cfg) = [] /\ main cfg w = (Raise (SystemExit 1), w))
  \/ (valid_urls (urls cfg) <> [] /\ stored_history w = None /\
      main cfg w = (Raise JSONDecodeError, w))
  \/ (valid_urls (urls cfg) <> [] /\ exists h, stored_history w = Some h).
Proof.
  destruct (valid_urls (urls cfg)) as [|v vs] eqn:Ev.
  - left. split; [reflexivity|]. unfold main. rewrite Ev.
    now destruct (urls cfg).
  - right. destruct (stored_history w) as [h|] eqn:Eh.
    + right. split; [discriminate | now exists h].
    + left. split; [discriminate|]. split; [reflexivity|].
      unfold main. rewrite Ev.
      destruct (urls cfg) as [|u0 us0]; [discriminate|].
      unfold stored_history in Eh. unfold bind, load_history.
      destruct (history_file w) as [[raw|h0]|]; try discriminate. reflexivity.
Qed.

(** In a log made of fetches, one save and the mail of the batch, whatever
    comes before an SMTP session includes the save. *)
Lemma save_precedes_smtp cfg date results us h pre post s b t :
  (pre ++ EvSmtp s b t :: post
   = map EvGet us ++ [EvSave h] ++ mail_events cfg date results)%list ->
  In (EvSave h) pre.
Proof.
  revert pre. induction us as [|u us IH]; intros pre; cbn [map app].
  - destruct pre as [|e pre]; cbn [app].
    + discriminate.
    + intros [= -> _]. now left.
  - destruct pre as [|e pre]; cbn [app].
    + discriminate.
    + intros [= -> Hrest]. right. now apply IH.
Qed.

(** C8.  In every run with at least one successful fetch, the history
    file holds the new Run, as the latest run and with the Score Record of
    every URL whose fetch returned a non-empty record, before any SMTP
    session is opened; the run completes and leaves that same history file
    whether the delivery succeeds or fails; and when e-mail is configured
    the session is opened right after the save. *)
Theorem persisted_before_notification (cfg : config) (w : world)
    (h : history) :
  valid_urls (urls cfg) <> [] ->
  stored_history w = Some h ->
  batch_results cfg h (network w) <> [] ->
  (forall up,
     fst (main cfg (set_smtp_up up w)) = Ret tt /\
     persisted (snd (main cfg (set_smtp_up up w)))
     = Some (append_run h
               (new_run (now w) (batch_results cfg h (network w)))))
  /\ (forall up pre post subject html_body text_body,
        log (snd (main cfg (set_smtp_up up w)))
        = (log w ++ pre ++ EvSmtp subject html_body text_body :: post)%list ->
        In (EvSave (append_run h
                      (new_run (now w) (batch_results cfg h (network w)))))
           pre)
  /\ (email_configured cfg = true ->
      forall up, exists subject html_body text_body,
        log (snd (main cfg (set_smtp_up up w)))
        = (log w ++ map EvGet (valid_urls (urls cfg))
             ++ [ EvSave (append_run h
                            (new_run (now w)
                               (batch_results cfg h (network w))));
                  EvSmtp subject html_body text_body ])%list)
  /\ latest (append_run h
               (new_run (now w) (batch_results cfg h (network w))))
     = Some {| run_date := now w;
               run_results :=
                 map (fun r => {| s_url := r_url r; s_scores := r_scores r |})
                     (batch_results cfg h (network w)) |}
  /\ map (fun r => {| s_url := r_url r; s_scores := r_scores r |})
         (batch_results cfg h (network w)) <> []
  /\ (forall u d,
        In (u, Response d) (answers (valid_urls (urls cfg)) (network w)) ->
        Dict.truthy (extract_scores d (categories cfg)) = true ->
        In {| s_url := u; s_scores := extract_scores d (categories cfg) |}
           (map (fun r => {| s_url := r_url r; s_scores := r_scores r |})
                (batch_results cfg h (network w)))).
Proof.
  intros Hurls Hh Hres.
  assert (Hmain : forall up, main cfg (set_smtp_up up w) = _)
    by (intros up; exact (main_spec cfg (set_smtp_up up w) h Hurls Hh)).
  cbn [set_smtp_up network now log smtp_up history_file] in Hmain.
  split; [|split; [|split; [|split; [|split]]]].
  - intros up. now rewrite Hmain.
  - intros up pre post s b t. rewrite Hmain. cbn [snd log].
    intros Hlog. apply app_inv_head in Hlog.
    eapply save_precedes_smtp. symmetry. exact Hlog.
  - intros Hconf up. rewrite Hmain. cbn [snd log]. unfold mail_events.
    rewrite Hconf.
    destruct (batch_results cfg h (network w)) as [|r rs] eqn:E;
      [now elim Hres|].
    do 3 eexists. reflexivity.
  - apply latest_append_run.
  - destruct (batch_results cfg h (network w)); [now elim Hres | discriminate].
  - intros u d Hin Htruthy. apply in_map_iff.
    exists {| r_url := u;
              r_scores := extract_scores d (categories cfg);
              r_previous := get_or_empty (previous_scores_of (latest h)) u;
              r_changes :=
                compare_scores (extract_scores d (categories cfg))
                  (get_or_empty (previous_scores_of (latest h)) u)
                  (threshold cfg) |}.
    split; [reflexivity|].
    unfold batch_results. apply in_flat_map. exists (u, Response d).
    split; [exact Hin|].
    unfold audited. cbn [fetched snd fst]. rewrite Htruthy. now left.
Qed.

Lemma persisted_before_notification_witness :
  fst (main sample_cfg (set_smtp_up false (sample_world net_one_failure true)))
  = Ret tt /\
  persisted
    (snd (main sample_cfg
            (set_smtp_up false (sample_world net_one_failure true))))
  = Some (append_run sample_history
            (new_run (now (sample_world net_one_failure true))
               (batch_results sample_cfg sample_history
                  (network (sample_world net_one_failure true))))).
Proof.
  assert (Hurls : valid_urls (urls sample_cfg) <> []) by (vm_compute; discriminate).
  assert (Hh : stored_history (sample_world net_one_failure true)
               = Some sample_history) by reflexivity.
  assert (Hres : batch_results sample_cfg sample_history
                   (network (sample_world net_one_failure true)) <> [])
    by (vm_compute; discriminate).
  exact (proj1 (persisted_before_notification sample_cfg
                  (sample_world net_one_failure true) sample_history
                  Hurls Hh Hres) false).
Defined.

(** ** Empty Score Records *)

Lemma extract_score_truthy d s cat :
  Dict.truthy s = true -> Dict.truthy (extract_score d s cat) = true.
Proof.
  intros Hs. unfold extract_score.
  repeat match goal with
         | |- context [match ?x with _ => _ end] => destruct x
         end; trivial; apply DictFacts.truthy_set.
Qed.

Lemma fold_extract_truthy d cats s :
  Dict.truthy s = true ->
  Dict.truthy (fold_left (extract_score d) cats s) = true.
Proof.
  revert s. induction cats as [|c cats IH]; intros s Hs; [exact Hs|].
  simpl. apply IH. now apply extract_score_truthy.
Qed.

(** The extraction loop leaves [scores] empty exactly when the answer holds
    no requested category, under its name or under its name without
    hyphens. *)
Lemma extract_scores_empty d cats :
  Dict.truthy (extract_scores d cats) = false <->
  forall cat, In cat cats ->
    Dict.get d cat = None /\ Dict.get d (remove_char "-" cat) = None.
Proof.
  unfold extract_scores. induction cats as [|c cats IH].
  - simpl. split; [intros _ cat [] | reflexivity].
  - cbn [fold_left]. split.
    + intros Hf.
      assert (Hc : extract_score d Dict.empty c = Dict.empty).
      { destruct (extract_score d Dict.empty c) as [|p l] eqn:E; [reflexivity|].
        rewrite fold_extract_truthy in Hf; [discriminate | reflexivity]. }
      rewrite Hc in Hf. intros cat [<-|Hin]; [|now apply IH].
      unfold extract_score in Hc.
      destruct (Dict.get d c); [discriminate|].
      destruct (Dict.get d (remove_char "-" c)); [discriminate|]. now split.
    + intros Hall.
      destruct (Hall c (or_introl eq_refl)) as [H1 H2].
      assert (Hc : extract_score d Dict.empty c = Dict.empty).
      { unfold extract_score. rewrite H1, H2.
        destruct (String.eqb_spec c "best-practices") as [->|_]; [|reflexivity].
        now rewrite H1. }
      rewrite Hc. apply IH. intros cat Hin. apply Hall. now right.
Qed.

Lemma batch_results_alike cfg ps d net2 :
  Dict.truthy (extract_scores d (categories cfg)) = false ->
  forall us net1,
    flat_map (audited cfg ps) (answers us (net1 ++ Response d :: net2))
    = flat_map (audited cfg ps) (answers us (net1 ++ RequestException :: net2)).
Proof.
  intros Hd. induction us as [|u us IH]; intros net1; [reflexivity|].
  rewrite !answers_cons. cbn [flat_map].
  destruct net1 as [|r net1]; cbn [app hd tl].
  - unfold audited at 1 3. cbn [fetched snd]. now rewrite Hd.
  - now rewrite IH.
Qed.

(** C10.  When the fetch of a URL succeeds with an empty Score Record (the
    answer holds none of the requested categories), the audit loop leaves
    its results as they were, exactly as for a failed fetch; the whole run
    then has the same outcome, writes the same history file and performs
    the same effects as the run in which that fetch fails. *)
Theorem empty_record_like_failure (cfg : config) (w : world) (d : dict Z)
    (net1 net2 : list http_result) :
  Dict.truthy (extract_scores d (categories cfg)) = false ->
  (forall ps acc url,
     fst (audit_url cfg ps acc url (set_network (Response d :: net2) w))
     = Ret acc /\
     audit_url cfg ps acc url (set_network (Response d :: net2) w)
     = audit_url cfg ps acc url (set_network (RequestException :: net2) w))
  /\ fst (main cfg (set_network (net1 ++ Response d :: net2) w))
     = fst (main cfg (set_network (net1 ++ RequestException :: net2) w))
  /\ history_file (snd (main cfg (set_network (net1 ++ Response d :: net2) w)))
     = history_file
         (snd (main cfg (set_network (net1 ++ RequestException :: net2) w)))
  /\ log (snd (main cfg (set_network (net1 ++ Response d :: net2) w)))
     = log (snd (main cfg (set_network (net1 ++ RequestException :: net2) w))).
Proof.
  intros Hd. split.
  - intros ps [res flag] url. rewrite !audit_url_spec.
    cbn [set_network network hd tl history_file smtp_up now log fst].
    unfold audited. cbn [fetched snd]. rewrite Hd. cbn [some_changes existsb].
    now rewrite app_nil_r, orb_false_r.
  - set (wa := set_network (net1 ++ Response d :: net2) w).
    set (wb := set_network (net1 ++ RequestException :: net2) w).
    destruct (main_start_up cfg wa) as [[Hu Ha]|[(Hu & Hs & Ha)|(Hu & h & Hs)]].
    + destruct (main_start_up cfg wb) as [[_ Hb]|[(Hu' & _)|(Hu' & _)]];
        try contradiction.
      rewrite Ha, Hb. now repeat split.
    + destruct (main_start_up cfg wb) as [[Hu' _]|[(_ & _ & Hb)|(_ & h & Hs')]];
        try contradiction.
      * rewrite Ha, Hb. now repeat split.
      * unfold wa, wb, stored_history, set_network in *.
        cbn [history_file] in *. congruence.
    + assert (Hs' : stored_history wb = Some h) by exact Hs.
      rewrite (main_spec cfg wa h Hu Hs), (main_spec cfg wb h Hu Hs').
      unfold batch_results, wa, wb.
      cbn [set_network network now log fst snd history_file].
      rewrite (batch_results_alike cfg _ d net2 Hd). now repeat split.
Qed.

Lemma empty_record_like_failure_witness :
  Dict.truthy (extract_scores [("pwa", 30)] (categories sample_cfg)) = false /\
  history_file
    (snd (main sample_cfg
            (set_network ([RequestException] ++ Response [("pwa", 30)]
                            :: [Response [("performance", 70); ("seo", 80)]])
                         (sample_world [] true))))
  = history_file
      (snd (main sample_cfg
              (set_network ([RequestException] ++ RequestException
                              :: [Response [("performance", 70); ("seo", 80)]])
                           (sample_world [] true)))).
Proof.
  assert (Hd : Dict.truthy (extract_scores [("pwa", 30)] (categories sample_cfg))
               = false) by reflexivity.
  split; [exact Hd|].
  exact (proj1 (proj2 (proj2 (empty_record_like_failure sample_cfg
           (sample_world [] true) [("pwa", 30)] [RequestException]
           [Response [("performance", 70); ("seo", 80)]] Hd)))).
Defined.

(** ** Reports *)

Lemma append_assoc (a b c : string) : (a ++ b) ++ c = a ++ (b ++ c).
Proof. induction a as [|x a IH]; simpl; [reflexivity | now rewrite IH]. Qed.

Lemma append_empty_r (a : string) : a ++ EmptyString = a.
Proof. induction a as [|x a IH]; simpl; [reflexivity | now rewrite IH]. Qed.

Lemma fold_left_append {A} (f : A -> string) (xs : list A) (acc : string) :
  fold_left (fun acc x => acc ++ f x) xs acc = acc ++ join (map f xs).
Proof.
  revert acc. induction xs as [|x xs IH]; intros acc; simpl.
  - now rewrite append_empty_r.
  - now rewrite IH, append_assoc.
Qed.

Lemma html_section_entry html r : html_section html r = html ++ html_entry r.
Proof.
  unfold html_section, html_entry. rewrite fold_left_append.
  destruct (r_changes r); rewrite ?append_assoc; reflexivity.
Qed.

Lemma text_section_entry text r : text_section text r = text ++ text_entry r.
Proof.
  unfold text_section, text_entry. rewrite fold_left_append.
  destruct (r_changes r); rewrite ?append_assoc; reflexivity.
Qed.

Lemma fold_left_step {A} (step : string -> A -> string) (f : A -> string) :
  (forall acc x, step acc x = acc ++ f x) ->
  forall xs acc, fold_left step xs acc = acc ++ join (map f xs).
Proof.
  intros Hstep. induction xs as [|x xs IH]; intros acc; simpl.
  - now rewrite append_empty_r.
  - now rewrite IH, Hstep, append_assoc.
Qed.

Lemma change_html_text score prev_score :
  change_html score prev_score
  = span (change_class score prev_score) (change_text score prev_score).
Proof.
  unfold change_html, change_text, change_class, span.
  destruct prev_score as [p|]; [|reflexivity].
  destruct (score - p >? 0); [now rewrite ?append_assoc|].
  destruct (score - p <? 0); now rewrite ?append_assoc.
Qed.

Lemma badge_class_tiers score :
  (badge_class score = "score-good" <-> 90 <= score)
  /\ (badge_class score = "score-ok" <-> 50 <= score < 90)
  /\ (badge_class score = "score-bad" <-> score < 50).
Proof.
  unfold badge_class.
  destruct (Z.geb_spec score 90); [|destruct (Z.geb_spec score 50)];
    repeat split; intros; try lia; try discriminate; reflexivity.
Qed.

Lemma append_tail (a b c : string) : b = c -> a ++ b = a ++ c.
Proof. now intros ->. Qed.

Lemma append_head (a b c : string) : a = b -> a ++ c = b ++ c.
Proof. now intros ->. Qed.

(** C9 (as amended).  Both reports are built from the same entries in the
    same order.  For each entry both show its URL and, exactly when its
    change list is not empty, the changes-detected banner, and then one row
    per category in the order of the scores.  A row of the plain report
    consists of the category label, the current score, the previous score
    (or [N/A]) and the change indicator ([+N] with an up arrow, [N] with a
    down arrow, a dash, or [First run]) and nothing else; the row of the
    HTML report holds the same four values, the indicator inside a span of
    class [improved], [declined] or [no-change], and in addition the score
    tier (at least 90 [score-good], at least 50 [score-ok], otherwise
    [score-bad]) as the class of the score badge. *)
Theorem reports_share_facts (results : list result) (run_date : string) :
  format_email_html results run_date
  = html_head run_date
    ++ join (map (fun r =>
         "<div class=" ++ dq ++ "url-section" ++ dq ++ "><h2>"
         ++ r_url r ++ "</h2>"
         ++ match r_changes r with
            | _ :: _ => "<div class=" ++ dq ++ "alert" ++ dq ++ ">‚ö†Ô∏è Score changes detected!</div>"
            | [] => EmptyString
            end
         ++ html_table_head
         ++ join (map (fun item : string * Z =>
              "
                <tr>
                    <td>" ++ label (fst item)
              ++ "</td>
                    <td><span class=" ++ dq ++ "score-badge " ++ badge_class (snd item)
              ++ dq ++ ">" ++ str (snd item)
              ++ "</span></td>
                    <td>" ++ show_prev (Dict.get (r_previous r) (fst item))
              ++ "</td>
                    <td>" ++ "<span class=" ++ dq
              ++ change_class (snd item) (Dict.get (r_previous r) (fst item))
              ++ dq ++ ">"
              ++ change_text (snd item) (Dict.get (r_previous r) (fst item))
              ++ "</span>" ++ "</td>
                </tr>
            ")
            (Dict.items (r_scores r)))
         ++ "</table></div>") results)
    ++ html_foot
  /\ format_email_text results run_date
     = "LIGHTHOUSE REPORT" ++ nl ++ times "=" 50 ++ nl
       ++ "Run Date: " ++ run_date ++ nl ++ nl
       ++ join (map (fun r =>
            nl ++ r_url r ++ nl
            ++ times "-" (String.length (r_url r)) ++ nl ++ nl
            ++ match r_changes r with
               | _ :: _ => "‚ö†Ô∏è  SCORE CHANGES DETECTED!" ++ nl ++ nl
               | [] => EmptyString
               end
            ++ join (map (fun item : string * Z =>
                 "  " ++ ljust (label (fst item)) 20
                 ++ " " ++ rjust (str (snd item)) 3
                 ++ " (was "
                 ++ show_prev (Dict.get (r_previous r) (fst item))
                 ++ ") "
                 ++ change_text (snd item) (Dict.get (r_previous r) (fst item))
                 ++ nl)
               (Dict.items (r_scores r)))
            ++ nl) results)
  /\ (forall score p,
        show_prev None = "N/A"
        /\ show_prev (Some p) = str p
        /\ change_text score None = "First run"
        /\ change_class score None = "no-change"
        /\ change_text score (Some p)
           = (if score - p >? 0 then "+" ++ str (score - p) ++ " ‚Üë"
              else if score - p <? 0 then str (score - p) ++ " ‚Üì"
              else "‚Äî")
        /\ change_class score (Some p)
           = (if score - p >? 0 then "improved"
              else if score - p <? 0 then "declined"
              else "no-change"))
  /\ (forall score,
        (badge_class score = "score-good" <-> 90 <= score)
        /\ (badge_class score = "score-ok" <-> 50 <= score < 90)
        /\ (badge_class score = "score-bad" <-> score < 50)).
Proof.
  split; [|split; [|split]].
  - unfold format_email_html.
    rewrite (fold_left_step html_section html_entry html_section_entry).
    rewrite append_assoc. apply append_tail, append_head, f_equal, map_ext.
    intros r. unfold html_entry. repeat apply append_tail.
    apply append_head, f_equal, map_ext.
    intros [category score]. cbn [fst snd].
    unfold html_row, html_row_template.
    rewrite change_html_text. unfold span.
    rewrite ?append_assoc. reflexivity.
  - unfold format_email_text. fold (text_head run_date).
    rewrite (fold_left_step text_section text_entry text_section_entry).
    unfold text_head. rewrite ?append_assoc. repeat apply append_tail.
    apply f_equal, map_ext.
    intros r. unfold text_entry. repeat apply append_tail.
    apply append_head, f_equal, map_ext.
    intros [category score]. reflexivity.
  - intros score p. repeat split.
  - apply badge_class_tiers.
Qed.

(** C9 as stated fails for the score tier: for a first audit scoring 95 the
    HTML report shows the score in a [score-good] badge, while the plain
    report, given here in full, names no tier. *)
Lemma tier_only_in_html_counterexample :
  occurs (span "score-badge score-good" "95")
         (format_email_html sample_first_run "2026-01-08T06:00:00") = true
  /\ format_email_text sample_first_run "2026-01-08T06:00:00"
     = "LIGHTHOUSE REPORT" ++ nl
       ++ "==================================================" ++ nl
       ++ "Run Date: 2026-01-08T06:00:00" ++ nl ++ nl
       ++ nl ++ "https://a.example" ++ nl
       ++ "-----------------" ++ nl ++ nl
       ++ "  Seo                   95 (was N/A) First run" ++ nl
       ++ nl
  /\ names_a_tier (format_email_text sample_first_run "2026-01-08T06:00:00")
     = false.
Proof. repeat split; vm_compute; reflexivity. Qed.

(** * Further properties of the code *)

(** ** Change detection *)

Lemma compare_item_significant previous t item :
  map (fun ch => (ch_category ch, ch_current ch))
      (compare_item previous t item)
  = if significant previous t item then [item] else [].
Proof.
  destruct item as [c cur]. unfold compare_item, significant. cbn [fst snd].
  destruct (Dict.get previous c) as [prev|]; [|reflexivity].
  now destruct (Z.abs (cur - prev) >=? t).
Qed.

(** The Changes, read as (category, current score) pairs, are the items of
    [current] that pass the test, in order. *)
Lemma compare_scores_items current previous t :
  map (fun ch => (ch_category ch, ch_current ch))
      (compare_scores current previous t)
  = filter (significant previous t) (Dict.items current).
Proof.
  rewrite compare_scores_flat_map. unfold Dict.items.
  induction current as [|item cur IH]; [reflexivity|].
  cbn [flat_map filter]. rewrite map_app, IH, compare_item_significant.
  now destruct (significant previous t item).
Qed.

(** X1.  The Changes follow the iteration order of [current]: their
    (category, current score) pairs are the items of [current] that have a
    baseline and moved by at least the threshold, in the same order.  So
    there are at most as many Changes as categories, and no category is
    reported twice. *)
Theorem compare_scores_order (current previous : scores_t) (t : Z) :
  map (fun ch => (ch_category ch, ch_current ch))
      (compare_scores current previous t)
  = filter (significant previous t) (Dict.items current)
  /\ (List.length (compare_scores current previous t)
      <= List.length (Dict.items current))%nat
  /\ (Dict.wf current ->
      NoDup (map ch_category (compare_scores current previous t))).
Proof.
  pose proof (compare_scores_items current previous t) as Hmap.
  split; [exact Hmap|]. split.
  - rewrite <- (length_map (fun ch => (ch_category ch, ch_current ch))), Hmap.
    apply filter_length_le.
  - intros Hwf.
    assert (Hk : map ch_category (compare_scores current previous t)
                 = map fst (filter (significant previous t) current)).
    { unfold Dict.items in Hmap. rewrite <- Hmap, map_map. reflexivity. }
    rewrite Hk. unfold Dict.wf, Dict.keys in Hwf. clear Hmap Hk.
    induction current as [|item cur IH]; [constructor|].
    inversion Hwf as [|? ? Hnotin Hnd]; subst. cbn [filter].
    destruct (significant previous t item); [|now apply IH].
    cbn [map]. constructor; [|now apply IH].
    intros Hin. apply Hnotin. apply in_map_iff in Hin.
    destruct Hin as (x & Hx & Hf). apply filter_In in Hf.
    apply in_map_iff. exists x. tauto.
Qed.

Lemma compare_scores_order_witness :
  NoDup (map ch_category
           (compare_scores [("performance", 79); ("seo", 90)]
                           [("performance", 85); ("seo", 80)] 5)).
Proof.
  assert (Hwf : Dict.wf [("performance", 79); ("seo", 90)]).
  { unfold Dict.wf. simpl. repeat constructor; simpl; intuition discriminate. }
  exact (proj2 (proj2 (compare_scores_order
                         [("performance", 79); ("seo", 90)]
                         [("performance", 85); ("seo", 80)] 5)) Hwf).
Defined.

Lemma compare_item_threshold previous t1 t2 item :
  t1 <= t2 ->
  compare_item previous t2 item
  = filter (fun ch => Z.abs (ch_diff ch) >=? t2)
           (compare_item previous t1 item).
Proof.
  intros Hle. destruct item as [c cur]. unfold compare_item.
  destruct (Dict.get previous c) as [prev|]; [|reflexivity].
  destruct (Z.geb_spec (Z.abs (cur - prev)) t1) as [H1|H1];
    destruct (Z.geb_spec (Z.abs (cur - prev)) t2) as [H2|H2];
    cbn [filter ch_diff]; try lia.
  - destruct (Z.geb_spec (Z.abs (cur - prev)) t2); [reflexivity | lia].
  - destruct (Z.geb_spec (Z.abs (cur - prev)) t2); [lia | reflexivity].
  - reflexivity.
Qed.

(** X2.  Raising the threshold only removes Changes: the Changes at a
    higher threshold are those at the lower one whose absolute difference
    reaches the higher threshold, in the same order.  A threshold of 0 or
    less reports every category of [current] that has a baseline. *)
Theorem compare_scores_threshold (current previous : scores_t) (t1 t2 : Z) :
  (t1 <= t2 ->
   compare_scores current previous t2
   = filter (fun ch => Z.abs (ch_diff ch) >=? t2)
            (compare_scores current previous t1))
  /\ (t1 <= 0 ->
      map ch_category (compare_scores current previous t1)
      = filter (Dict.mem previous) (Dict.keys current)).
Proof.
  split.
  - intros Hle. rewrite !compare_scores_flat_map.
    induction current as [|item cur IH]; [reflexivity|].
    cbn [flat_map]. rewrite filter_app, <- IH.
    now rewrite <- (compare_item_threshold previous t1 t2 item Hle).
  - intros Hle. rewrite compare_scores_flat_map. unfold Dict.keys.
    induction current as [|[c cur] rest IH]; [reflexivity|].
    cbn [flat_map map filter fst]. rewrite map_app, IH.
    unfold compare_item, Dict.mem.
    destruct (Dict.get previous c) as [prev|]; [|reflexivity].
    destruct (Z.geb_spec (Z.abs (cur - prev)) t1); [reflexivity | lia].
Qed.

Lemma compare_scores_threshold_witness :
  compare_scores [("performance", 79); ("seo", 90)]
                 [("performance", 85); ("seo", 88)] 5
  = filter (fun ch => Z.abs (ch_diff ch) >=? 5)
           (compare_scores [("performance", 79); ("seo", 90)]
                           [("performance", 85); ("seo", 88)] 1).
Proof.
  assert (Hle : 1 <= 5) by lia.
  exact (proj1 (compare_scores_threshold
                  [("performance", 79); ("seo", 90)]
                  [("performance", 85); ("seo", 88)] 1 5) Hle).
Defined.

(** X3.  Comparing in the other direction mirrors the Changes: a Change of
    non-zero difference found from [a] against [b] is found from [b] against
    [a] with the two scores exchanged, the difference negated and the
    direction label reversed. *)
Theorem compare_scores_swap (a b : scores_t) (t : Z) (ch : change) :
  Dict.wf a ->
  In ch (compare_scores a b t) ->
  ch_diff ch <> 0 ->
  In (swap_change ch) (compare_scores b a t).
Proof.
  intros Hwf Hin Hnz. apply compare_scores_In in Hin.
  destruct Hin as (c & cur & prev & Hc & Hp & Hge & ->).
  cbn [ch_diff] in Hnz.
  apply compare_scores_In. exists c, prev, cur.
  split; [now apply DictFacts.get_In|].
  split; [now apply DictFacts.In_get|].
  split; [lia|].
  unfold swap_change. cbn [ch_category ch_previous ch_current ch_diff ch_direction].
  f_equal; [lia|].
  destruct (Z.gtb_spec (cur - prev) 0); destruct (Z.gtb_spec (prev - cur) 0);
    try reflexivity; lia.
Qed.

Lemma compare_scores_swap_witness :
  In (swap_change sample_change)
     (compare_scores [("performance", 85)] [("performance", 79)] 5).
Proof.
  assert (Hwf : Dict.wf [("performance", 79)]).
  { unfold Dict.wf. simpl. repeat constructor. simpl. tauto. }
  assert (Hin : In sample_change
                   (compare_scores [("performance", 79)]
                                   [("performance", 85)] 5)).
  { vm_compute. left. reflexivity. }
  assert (Hnz : ch_diff sample_change <> 0) by (vm_compute; discriminate).
  exact (compare_scores_swap [("performance", 79)] [("performance", 85)] 5
           sample_change Hwf Hin Hnz).
Defined.

(** ** Dictionary updates *)

Lemma get_set_same {V} (d : dict V) k v : Dict.get (Dict.set d k v) k = Some v.
Proof.
  induction d as [|[k' v'] d IH]; simpl.
  - now rewrite String.eqb_refl.
  - destruct (String.eqb_spec k k') as [->|Hne]; simpl.
    + now rewrite String.eqb_refl.
    + destruct (String.eqb_spec k k'); [contradiction | exact IH].
Qed.

Lemma get_set_other {V} (d : dict V) k k' v :
  k' <> k -> Dict.get (Dict.set d k v) k' = Dict.get d k'.
Proof.
  intros Hne. induction d as [|[k0 v0] d IH]; simpl.
  - destruct (String.eqb_spec k' k); [contradiction | reflexivity].
  - destruct (String.eqb_spec k k0) as [->|Hk]; simpl.
    + destruct (String.eqb_spec k' k0); [contradiction | reflexivity].
    + destruct (String.eqb_spec k' k0); [reflexivity | exact IH].
Qed.

(** ** Score extraction *)

Lemma extract_score_get d s c cat :
  Dict.get (extract_score d s c) cat
  = if String.eqb cat c then
      match api_score d c with
      | Some v => Some v
      | None => Dict.get s cat
      end
    else Dict.get s cat.
Proof.
  unfold extract_score, api_score.
  destruct (String.eqb_spec cat c) as [->|Hne].
  - destruct (Dict.get d c) eqn:E1; [apply get_set_same|].
    destruct (Dict.get d (remove_char "-" c)) eqn:E2; [apply get_set_same|].
    destruct (String.eqb_spec c "best-practices") as [->|_]; [|reflexivity].
    now rewrite E1.
  - destruct (Dict.get d c) eqn:E1; [now apply get_set_other|].
    destruct (Dict.get d (remove_char "-" c)) eqn:E2; [now apply get_set_other|].
    destruct (String.eqb_spec c "best-practices") as [->|_]; [|reflexivity].
    now rewrite E1.
Qed.

Lemma fold_extract_get d cats : forall s cat,
  Dict.get (fold_left (extract_score d) cats s) cat
  = match (if mem_string cat cats then api_score d cat else None) with
    | Some v => Some v
    | None => Dict.get s cat
    end.
Proof.
  unfold mem_string.
  induction cats as [|c cats IH]; intros s cat; [reflexivity|].
  cbn [fold_left existsb]. rewrite IH, extract_score_get.
  destruct (String.eqb_spec cat c) as [->|Hne]; cbn [orb].
  - destruct (existsb (String.eqb c) cats); now destruct (api_score d c).
  - reflexivity.
Qed.

(** X4.  The Score Record that [run_lighthouse] extracts from an answer
    holds exactly the requested categories that the answer scores, each
    once and under its requested name, with the score found under that name
    or, failing that, under the name without hyphens; a category that was
    not requested is never recorded, whatever the answer holds. *)
Theorem extract_scores_lookup (d : dict Z) (cats : list string) :
  Dict.wf (extract_scores d cats)
  /\ forall cat,
       Dict.get (extract_scores d cats) cat
       = if mem_string cat cats then api_score d cat else None.
Proof.
  split; [apply extract_scores_wf|].
  intros cat. unfold extract_scores. rewrite fold_extract_get.
  now destruct (if mem_string cat cats then api_score d cat else None).
Qed.

(** ** The baseline of a URL *)

Lemma previous_scores_fold l : forall acc url,
  Dict.get (fold_left (fun previous_scores result =>
                         Dict.set previous_scores (s_url result)
                                  (s_scores result)) l acc) url
  = match find (fun x => String.eqb (s_url x) url) (rev l) with
    | Some x => Some (s_scores x)
    | None => Dict.get acc url
    end.
Proof.
  induction l as [|x l IH] using rev_ind; intros acc url; [reflexivity|].
  rewrite fold_left_app, rev_app_distr. cbn [fold_left rev app find].
  destruct (String.eqb_spec (s_url x) url) as [<-|Hne].
  - apply get_set_same.
  - rewrite get_set_other by congruence. apply IH.
Qed.

(** X5.  The baseline [main] uses for a URL is the Score Record of the last
    entry for that URL in the latest run; a URL the latest run does not
    list, and any URL when the history is empty, has the empty baseline,
    whatever older runs hold. *)
Theorem baseline_from_latest_run (h : history) (url : string) :
  get_or_empty (previous_scores_of (latest h)) url
  = match latest h with
    | Some r =>
        match last_entry r url with
        | Some x => s_scores x
        | None => Dict.empty
        end
    | None => Dict.empty
    end.
Proof.
  unfold get_or_empty, previous_scores_of, last_entry.
  destruct (latest h) as [r|]; [|reflexivity].
  rewrite previous_scores_fold.
  now destruct (find _ (rev (run_results r))).
Qed.

(** ** The URLs of a batch *)

Lemma lstrip_head s : lstrip s = EmptyString \/
  exists c s', lstrip s = String c s' /\ is_space c = false.
Proof.
  induction s as [|c s IH]; [now left|]. simpl.
  destruct (is_space c) eqn:E; [exact IH|]. right. now exists c, s.
Qed.

Lemma rstrip_keeps_head c s :
  is_space c = false -> rstrip (String c s) = String c (rstrip s).
Proof. intros Hc. simpl. rewrite Hc. now destruct (rstrip s). Qed.

Lemma rstrip_idempotent s : rstrip (rstrip s) = rstrip s.
Proof.
  induction s as [|c s IH]; [reflexivity|]. simpl.
  destruct (rstrip s) as [|c' r] eqn:E.
  - destruct (is_space c) eqn:Ec; [reflexivity|]. simpl. now rewrite Ec.
  - simpl in IH. simpl. destruct (rstrip r) as [|c2 r2] eqn:E2.
    + destruct (is_space c'); [discriminate|]. now rewrite IH.
    + now rewrite IH.
Qed.

Lemma strip_idempotent s : strip (strip s) = strip s.
Proof.
  unfold strip. destruct (lstrip_head s) as [E|(c & s' & E & Hc)]; rewrite E.
  - reflexivity.
  - rewrite (rstrip_keeps_head c s' Hc). cbn [lstrip]. rewrite Hc.
    rewrite <- (rstrip_keeps_head c s' Hc). apply rstrip_idempotent.
Qed.

Lemma valid_urls_fixed l :
  Forall (fun x => nonempty (strip x) = true) l ->
  valid_urls (map strip l) = map strip l.
Proof.
  unfold valid_urls. induction 1 as [|x l Hx _ IH]; [reflexivity|].
  cbn [map filter]. rewrite strip_idempotent, Hx. cbn [map].
  now rewrite strip_idempotent, IH.
Qed.

(** X6.  The batch that [main] audits is the configured list with every
    entry stripped of surrounding whitespace and the blank entries dropped,
    in the configured order: each of its URLs is non-empty, already
    stripped, and the stripped form of a configured entry; cleaning a
    cleaned list changes nothing; and the batch is empty exactly when every
    configured entry is blank. *)
Theorem valid_urls_clean (us : list string) :
  (forall u, In u (valid_urls us) <->
     exists u0, In u0 us /\ u = strip u0 /\ u <> EmptyString)
  /\ (forall u, In u (valid_urls us) -> strip u = u)
  /\ valid_urls (valid_urls us) = valid_urls us
  /\ (valid_urls us = [] <-> forall u0, In u0 us -> strip u0 = EmptyString).
Proof.
  assert (Hne : forall s, nonempty s = true <-> s <> EmptyString).
  { intros [|c s]; simpl; split; congruence. }
  assert (Hin : forall u, In u (valid_urls us) <->
              exists u0, In u0 us /\ u = strip u0 /\ u <> EmptyString).
  { intros u. unfold valid_urls. rewrite in_map_iff. split.
    - intros (u0 & <- & Hf). apply filter_In in Hf. destruct Hf as [Hu0 Hn].
      exists u0. repeat split; trivial. now apply Hne.
    - intros (u0 & Hu0 & -> & Hn). exists u0. split; [reflexivity|].
      apply filter_In. split; [exact Hu0 | now apply Hne]. }
  split; [exact Hin|]. split; [|split].
  - intros u Hu. apply Hin in Hu. destruct Hu as (u0 & _ & -> & _).
    apply strip_idempotent.
  - unfold valid_urls at 2 3. apply valid_urls_fixed.
    apply Forall_forall. intros x Hx. now apply filter_In in Hx.
  - split.
    + intros Hnil u0 Hu0. destruct (strip u0) as [|c s] eqn:E; [reflexivity|].
      assert (Hu : In (String c s) (valid_urls us)).
      { apply Hin. exists u0. rewrite E. repeat split; trivial. discriminate. }
      rewrite Hnil in Hu. destruct Hu.
    + intros Hall. destruct (valid_urls us) as [|u l] eqn:E; [reflexivity|].
      destruct (proj1 (Hin u) (or_introl eq_refl)) as (u0 & Hu0 & Hu & Hn).
      rewrite (Hall u0 Hu0) in Hu. contradiction.
Qed.

Lemma valid_urls_clean_witness :
  In "https://a.example" (valid_urls [" https://a.example "; "  "]) /\
  strip "https://a.example" = "https://a.example".
Proof.
  assert (Hin : In "https://a.example"
                   (valid_urls [" https://a.example "; "  "]))
    by (vm_compute; now left).
  exact (conj Hin
           (proj1 (proj2 (valid_urls_clean [" https://a.example "; "  "]))
                  "https://a.example" Hin)).
Defined.

(** ** Outcome and effects of [main] *)

(** X8.  A run of [main] that completes makes exactly one request per URL
    of the batch, in order, failed fetches included and none repeated; it
    then writes the history file once, and after that opens at most one
    SMTP session, none when the batch has no result or e-mail is not
    configured.  It uses up one answer of the network per URL. *)
Theorem main_effects (cfg : config) (w : world) (h : history) :
  valid_urls (urls cfg) <> [] ->
  stored_history w = Some h ->
  exists h' mail,
    log (snd (main cfg w))
    = (log w ++ map EvGet (valid_urls (urls cfg)) ++ [EvSave h'] ++ mail)%list
    /\ history_file (snd (main cfg w)) = Some (Encoded h')
    /\ network (snd (main cfg w))
       = skipn (List.length (valid_urls (urls cfg))) (network w)
    /\ (List.length mail <= 1)%nat
    /\ (forall e, In e mail -> exists s b t, e = EvSmtp s b t)
    /\ (mail <> [] <->
        email_configured cfg = true /\ batch_results cfg h (network w) <> []).
Proof.
  intros Hurls Hh. rewrite (main_spec cfg w h Hurls Hh).
  cbn [snd log history_file network].
  exists (append_run h (new_run (now w) (batch_results cfg h (network w)))),
         (mail_events cfg (now w) (batch_results cfg h (network w))).
  split; [reflexivity|]. split; [reflexivity|]. split; [reflexivity|].
  unfold mail_events.
  destruct (batch_results cfg h (network w)) as [|r rs].
  - cbn. split; [lia|]. split; [tauto|]. split; [tauto|].
    intros [_ H]. now elim H.
  - destruct (email_configured cfg); cbn.
    + split; [lia|]. split.
      * intros e [<-|[]]. now do 3 eexists.
      * split; [intros _; split; [reflexivity | discriminate] | discriminate].
    + split; [lia|]. split; [tauto|]. split; [tauto|].
      intros [H _]. discriminate.
Qed.

Lemma main_effects_witness :
  exists h' mail,
    log (snd (main sample_cfg (sample_world net_one_failure true)))
    = (log (sample_world net_one_failure true)
       ++ map EvGet (valid_urls (urls sample_cfg)) ++ [EvSave h'] ++ mail)%list
    /\ (List.length mail <= 1)%nat.
Proof.
  assert (Hurls : valid_urls (urls sample_cfg) <> []) by (vm_compute; discriminate).
  assert (Hh : stored_history (sample_world net_one_failure true)
               = Some sample_history) by reflexivity.
  destruct (main_effects sample_cfg (sample_world net_one_failure true)
              sample_history Hurls Hh) as (h' & mail & Hlog & _ & _ & Hlen & _).
  exists h', mail. exact (conj Hlog Hlen).
Defined.

(** ** What the notification says *)

Lemma audited_entry cfg ps a r :
  In r (audited cfg ps a) ->
  r_url r = fst a /\
  fetched cfg (snd a) = Some (r_scores r) /\
  Dict.truthy (r_scores r) = true /\
  r_previous r = get_or_empty ps (fst a) /\
  r_changes r = compare_scores (r_scores r) (r_previous r) (threshold cfg).
Proof.
  unfold audited. destruct (fetched cfg (snd a)) as [s|]; [|intros []].
  destruct (Dict.truthy s) eqn:E; [|intros []].
  intros [<-|[]]. cbn. now repeat split.
Qed.

Lemma batch_results_entry cfg h net r :
  In r (batch_results cfg h net) ->
  exists a,
    In a (answers (valid_urls (urls cfg)) net) /\
    r_url r = fst a /\
    fetched cfg (snd a) = Some (r_scores r) /\
    r_previous r = get_or_empty (previous_scores_of (latest h)) (r_url r) /\
    r_changes r = compare_scores (r_scores r) (r_previous r) (threshold cfg).
Proof.
  unfold batch_results. intros Hin. apply in_flat_map in Hin.
  destruct Hin as (a & Ha & Hr). apply audited_entry in Hr.
  destruct Hr as (Hu & Hf & _ & Hp & Hc).
  exists a. rewrite Hu. now repeat split.
Qed.

Lemma compare_scores_nonempty current previous t :
  compare_scores current previous t <> [] <->
  exists item, In item (Dict.items current) /\
               significant previous t item = true.
Proof.
  pose proof (compare_scores_items current previous t) as H.
  split.
  - intros Hne.
    destruct (filter (significant previous t) (Dict.items current))
      as [|item l] eqn:E.
    + destruct (compare_scores current previous t); [now elim Hne|discriminate].
    + exists item. apply filter_In. rewrite E. now left.
  - intros (item & Hin & Hs) Hnil. rewrite Hnil in H. cbn in H.
    assert (Hf : In item (filter (significant previous t) (Dict.items current)))
      by (apply filter_In; now split).
    rewrite <- H in Hf. destruct Hf.
Qed.

Lemma some_changes_true results :
  some_changes results = true <-> exists r, In r results /\ r_changes r <> [].
Proof.
  unfold some_changes. rewrite existsb_exists. split.
  - intros (r & Hr & Hc). exists r. split; [exact Hr|].
    destruct (r_changes r); [discriminate | discriminate].
  - intros (r & Hr & Hc). exists r. split; [exact Hr|].
    destruct (r_changes r); [now elim Hc | reflexivity].
Qed.

Lemma subjects_differ : subject_alert <> subject_quiet.
Proof. discriminate. Qed.

(** X9.  When a run yields results and e-mail is configured, the session
    opened right after the save carries the two reports rendered from the
    batch results and the run date, and its subject is the alert subject
    exactly when, for some URL of the results, some category has a baseline
    and a score that moved by at least the threshold; otherwise it is the
    no-significant-changes subject. *)
Theorem mail_subject (cfg : config) (w : world) (h : history) :
  valid_urls (urls cfg) <> [] ->
  stored_history w = Some h ->
  email_configured cfg = true ->
  batch_results cfg h (network w) <> [] ->
  exists subject,
    log (snd (main cfg w))
    = (log w ++ map EvGet (valid_urls (urls cfg))
         ++ [ EvSave (append_run h
                        (new_run (now w) (batch_results cfg h (network w))));
              EvSmtp subject
                (format_email_html (batch_results cfg h (network w)) (now w))
                (format_email_text (batch_results cfg h (network w)) (now w))
            ])%list
    /\ (subject = subject_alert \/ subject = subject_quiet)
    /\ (subject = subject_alert <->
        exists r item,
          In r (batch_results cfg h (network w)) /\
          In item (Dict.items (r_scores r)) /\
          significant (r_previous r) (threshold cfg) item = true).
Proof.
  intros Hurls Hh Hconf Hres. rewrite (main_spec cfg w h Hurls Hh).
  cbn [snd log]. unfold mail_events. rewrite Hconf.
  set (results := batch_results cfg h (network w)) in *.
  assert (Hsig : some_changes results = true <->
            exists r item, In r results /\ In item (Dict.items (r_scores r)) /\
              significant (r_previous r) (threshold cfg) item = true).
  { rewrite some_changes_true. split.
    - intros (r & Hr & Hc). destruct (batch_results_entry _ _ _ _ Hr)
        as (_ & _ & _ & _ & _ & Hch).
      rewrite Hch in Hc. apply compare_scores_nonempty in Hc.
      destruct Hc as (item & Hi & Hs). now exists r, item.
    - intros (r & item & Hr & Hi & Hs). exists r. split; [exact Hr|].
      destruct (batch_results_entry _ _ _ _ Hr) as (_ & _ & _ & _ & _ & Hch).
      rewrite Hch. apply compare_scores_nonempty. now exists item. }
  destruct results as [|r0 rs] eqn:E; [now elim Hres|]. rewrite <- E in *.
  exists (if some_changes results then subject_alert else subject_quiet).
  split; [reflexivity|]. split.
  - destruct (some_changes results); [now left | now right].
  - rewrite <- Hsig. destruct (some_changes results).
    + tauto.
    + split; [intros H; symmetry in H; now apply subjects_differ in H
             | discriminate].
Qed.

Lemma mail_subject_witness :
  exists subject,
    log (snd (main sample_cfg (sample_world net_one_failure true)))
    = (log (sample_world net_one_failure true)
       ++ map EvGet (valid_urls (urls sample_cfg))
       ++ [ EvSave (append_run sample_history
                      (new_run (now (sample_world net_one_failure true))
                         (batch_results sample_cfg sample_history
                            net_one_failure)));
            EvSmtp subject
              (format_email_html
                 (batch_results sample_cfg sample_history net_one_failure)
                 (now (sample_world net_one_failure true)))
              (format_email_text
                 (batch_results sample_cfg sample_history net_one_failure)
                 (now (sample_world net_one_failure true))) ])%list
    /\ subject = subject_alert.
Proof.
  assert (Hurls : valid_urls (urls sample_cfg) <> []) by (vm_compute; discriminate).
  assert (Hh : stored_history (sample_world net_one_failure true)
               = Some sample_history) by reflexivity.
  assert (Hconf : email_configured sample_cfg = true) by reflexivity.
  assert (Hres : batch_results sample_cfg sample_history
                   (network (sample_world net_one_failure true)) <> [])
    by (vm_compute; discriminate).
  destruct (mail_subject sample_cfg (sample_world net_one_failure true)
              sample_history Hurls Hh Hconf Hres) as (subject & Hlog & _ & Hiff).
  exists subject. split; [exact Hlog|].
  apply Hiff.
  exists {| r_url := "https://a.example";
            r_scores := [("performance", 79); ("seo", 90)];
            r_previous := [("performance", 85); ("seo", 90)];
            r_changes := [sample_change] |}, ("performance", 79).
  split; [vm_compute; now left|]. split; [now left | reflexivity].
Defined.

(** ** Runs without a baseline, and unchanged scores *)

Lemma compare_scores_no_baseline current t :
  compare_scores current Dict.empty t = [].
Proof.
  rewrite compare_scores_flat_map.
  induction current as [|[c cur] rest IH]; [reflexivity|].
  cbn [flat_map]. now rewrite IH.
Qed.

Lemma compare_scores_same (a : scores_t) (t : Z) :
  Dict.wf a -> 0 < t -> compare_scores a a t = [].
Proof.
  intros Hwf Ht.
  destruct (compare_scores a a t) as [|ch l] eqn:E; [reflexivity|].
  assert (Hin : In ch (compare_scores a a t)) by (rewrite E; now left).
  apply compare_scores_In in Hin.
  destruct Hin as (c & cur & prev & Hin & Hprev & Hge & _).
  apply (DictFacts.In_get _ _ _ Hwf) in Hin.
  assert (cur = prev) by congruence. subst. lia.
Qed.

Lemma no_changes_quiet results :
  (forall r, In r results -> r_changes r = []) -> some_changes results = false.
Proof.
  intros Hall. destruct (some_changes results) eqn:E; [|reflexivity].
  apply some_changes_true in E. destruct E as (r & Hr & Hc).
  now rewrite (Hall r Hr) in Hc.
Qed.

(** X10.  A URL that the latest run does not list has no baseline: its
    entry in the batch results has the empty previous record and no Change,
    whatever its scores and whatever older runs hold.  So the first run
    (no history file) never alerts: it leaves a history of exactly one run
    and, when it mails, uses the no-significant-changes subject. *)
Theorem first_observation_never_alerts (cfg : config) (w : world) :
  (forall h r,
     In r (batch_results cfg h (network w)) ->
     (forall lr, latest h = Some lr -> last_entry lr (r_url r) = None) ->
     r_previous r = Dict.empty /\ r_changes r = [])
  /\ (valid_urls (urls cfg) <> [] ->
      history_file w = None ->
      persisted (snd (main cfg w))
      = Some {| runs :=
                  [ new_run (now w)
                      (batch_results cfg {| runs := [] |} (network w)) ] |}
      /\ forall subject html_body text_body,
           In (EvSmtp subject html_body text_body) (log (snd (main cfg w))) ->
           ~ In (EvSmtp subject html_body text_body) (log w) ->
           subject = subject_quiet).
Proof.
  assert (Hno : forall h r,
     In r (batch_results cfg h (network w)) ->
     (forall lr, latest h = Some lr -> last_entry lr (r_url r) = None) ->
     r_previous r = Dict.empty /\ r_changes r = []).
  { intros h r Hr Hlatest.
    destruct (batch_results_entry _ _ _ _ Hr) as (_ & _ & _ & _ & Hp & Hc).
    assert (Hprev : r_previous r = Dict.empty).
    { rewrite Hp. unfold get_or_empty, previous_scores_of.
      destruct (latest h) as [lr|] eqn:El; [|reflexivity].
      rewrite previous_scores_fold.
      specialize (Hlatest lr eq_refl). unfold last_entry in Hlatest.
      now rewrite Hlatest. }
    split; [exact Hprev|]. rewrite Hc, Hprev.
    apply compare_scores_no_baseline. }
  split; [exact Hno|].
  intros Hurls Hfile.
  assert (Hh : stored_history w = Some {| runs := [] |})
    by (unfold stored_history; now rewrite Hfile).
  rewrite (main_spec cfg w _ Hurls Hh). cbn [snd persisted history_file log].
  split; [reflexivity|].
  intros subject html_body text_body Hin Hold.
  apply in_app_or in Hin. destruct Hin as [Hin|Hin]; [contradiction|].
  apply in_app_or in Hin. destruct Hin as [Hin|Hin].
  { apply in_map_iff in Hin. destruct Hin as (u & Hu & _). discriminate. }
  destruct Hin as [Hin|Hin]; [discriminate|].
  unfold mail_events in Hin.
  destruct (batch_results cfg {| runs := [] |} (network w)) as [|r0 rs] eqn:E;
    [destruct Hin|].
  rewrite <- E in *.
  destruct (email_configured cfg); [|destruct Hin].
  rewrite no_changes_quiet in Hin.
  - destruct Hin as [[= <- _ _]|[]]. reflexivity.
  - intros r Hr. apply (Hno {| runs := [] |} r Hr). intros lr Hl. discriminate.
Qed.

Lemma first_observation_never_alerts_witness :
  persisted (snd (main sample_cfg
                    (set_history_file None (sample_world net_one_failure true))))
  = Some {| runs :=
              [ new_run (now (set_history_file None
                                (sample_world net_one_failure true)))
                  (batch_results sample_cfg {| runs := [] |}
                     (network (set_history_file None
                                 (sample_world net_one_failure true)))) ] |}.
Proof.
  assert (Hurls : valid_urls (urls sample_cfg) <> []) by (vm_compute; discriminate).
  assert (Hfile : history_file (set_history_file None
                                  (sample_world net_one_failure true)) = None)
    by reflexivity.
  exact (proj1 (proj2 (first_observation_never_alerts sample_cfg
                         (set_history_file None
                            (sample_world net_one_failure true)))
                      Hurls Hfile)).
Defined.

Lemma answers_exact us : forall net extra,
  List.length net = List.length us ->
  answers us (net ++ extra) = combine us net.
Proof.
  induction us as [|u us IH]; intros net extra Hlen.
  - destruct net; [reflexivity | discriminate].
  - destruct net as [|r net]; [discriminate|].
    cbn [app answers combine]. f_equal. apply IH. simpl in Hlen. lia.
Qed.

Lemma results_urls cfg ps ans :
  map r_url (flat_map (audited cfg ps) ans) = map fst (filter (usable cfg) ans).
Proof.
  induction ans as [|a ans IH]; [reflexivity|].
  cbn [flat_map filter]. rewrite map_app, IH.
  unfold audited, usable. destruct (fetched cfg (snd a)) as [s|]; [|reflexivity].
  now destruct (Dict.truthy s).
Qed.

(** Dropping answers keeps the URLs of a batch distinct. *)
Lemma kept_urls_distinct (keep : string * http_result -> bool)
    (ans : list (string * http_result)) :
  NoDup (map fst ans) -> NoDup (map fst (filter keep ans)).
Proof.
  induction ans as [|[u resp] ans IH]; intros Hnd; [constructor|].
  apply NoDup_cons_iff in Hnd. destruct Hnd as [Hfresh Hnd].
  cbn [filter]. destruct (keep (u, resp)); [|exact (IH Hnd)].
  cbn [map fst]. apply NoDup_cons; [|exact (IH Hnd)].
  intros Hu. apply Hfresh. apply in_map_iff in Hu.
  destruct Hu as ([u' resp'] & Heq & Hkept). apply filter_In in Hkept.
  apply in_map_iff. exists (u', resp'). tauto.
Qed.

Lemma previous_scores_unique l x :
  NoDup (map s_url l) -> In x l ->
  Dict.get (fold_left (fun previous_scores result =>
                         Dict.set previous_scores (s_url result)
                                  (s_scores result)) l Dict.empty) (s_url x)
  = Some (s_scores x).
Proof.
  intros Hnd Hin. rewrite previous_scores_fold.
  assert (Hfind : forall y, In y l -> s_url y = s_url x -> y = x).
  { clear - Hnd Hin. induction l as [|z l IH]; [destruct Hin|].
    inversion Hnd as [|? ? Hnotin Hnd']; subst.
    intros y [->|Hy] Hu; destruct Hin as [->|Hx]; trivial.
    - exfalso. apply Hnotin. rewrite Hu. now apply in_map.
    - exfalso. apply Hnotin. rewrite <- Hu. now apply in_map.
    - now apply IH. }
  destruct (find (fun y => String.eqb (s_url y) (s_url x)) (rev l)) as [y|] eqn:E.
  - apply find_some in E. destruct E as [Hy Hu].
    apply String.eqb_eq in Hu. apply in_rev in Hy.
    now rewrite (Hfind y Hy Hu).
  - apply in_rev in Hin. pose proof (find_none _ _ E x Hin) as Hf.
    cbn beta in Hf. rewrite String.eqb_refl in Hf. discriminate.
Qed.

Lemma fetched_wf cfg r s : fetched cfg r = Some s -> Dict.wf s.
Proof.
  destruct r as [|d]; [discriminate|]. intros [= <-]. apply extract_scores_wf.
Qed.

(** X11.  Auditing twice in a row with a positive threshold, distinct URLs
    and the same answers from the API: the second run finds, for every URL
    of its results, the Score Record of the first run as its baseline, and
    reports no Change. *)
Theorem unchanged_scores_no_change (cfg : config) (w : world) (h : history)
    (net rest : list http_result) :
  valid_urls (urls cfg) <> [] ->
  NoDup (valid_urls (urls cfg)) ->
  0 < threshold cfg ->
  stored_history w = Some h ->
  network w = (net ++ net ++ rest)%list ->
  List.length net = List.length (valid_urls (urls cfg)) ->
  exists h1,
    stored_history (snd (main cfg w)) = Some h1
    /\ network (snd (main cfg w)) = (net ++ rest)%list
    /\ map r_url (batch_results cfg h1 (net ++ rest))
       = map r_url (batch_results cfg h (network w))
    /\ forall r,
         In r (batch_results cfg h1 (net ++ rest)) ->
         r_previous r = r_scores r /\ r_changes r = [].
Proof.
  intros Hurls Hnd Ht Hh Hnet Hlen.
  rewrite (main_spec cfg w h Hurls Hh).
  cbn [snd stored_history history_file network].
  set (results := batch_results cfg h (network w)).
  set (run1 := new_run (now w) results).
  exists (append_run h run1).
  split; [reflexivity|]. split.
  { rewrite Hnet, skipn_app, <- Hlen, skipn_all, Nat.sub_diag. reflexivity. }
  assert (Hans1 : answers (valid_urls (urls cfg)) (network w)
                  = combine (valid_urls (urls cfg)) net)
    by (rewrite Hnet; now apply answers_exact).
  assert (Hans2 : answers (valid_urls (urls cfg)) (net ++ rest)
                  = combine (valid_urls (urls cfg)) net)
    by now apply answers_exact.
  split.
  { unfold results, batch_results. now rewrite !results_urls, Hans1, Hans2. }
  intros r Hr.
  pose proof Hr as Hr'. unfold batch_results in Hr'.
  apply in_flat_map in Hr'. destruct Hr' as (a & Ha & Hra).
  apply audited_entry in Hra. destruct Hra as (Hu & Hf & Htr & Hp & Hc).
  rewrite latest_append_run in Hp.
  assert (Hx : In {| s_url := fst a; s_scores := r_scores r |}
                  (run_results run1)).
  { unfold run1, new_run. cbn [run_results]. apply in_map_iff.
    exists {| r_url := fst a; r_scores := r_scores r;
              r_previous :=
                get_or_empty (previous_scores_of (latest h)) (fst a);
              r_changes :=
                compare_scores (r_scores r)
                  (get_or_empty (previous_scores_of (latest h)) (fst a))
                  (threshold cfg) |}.
    split; [reflexivity|].
    unfold results, batch_results. apply in_flat_map. exists a.
    split; [now rewrite Hans1, <- Hans2|].
    unfold audited. rewrite Hf, Htr. now left. }
  assert (Hnd1 : NoDup (map s_url (run_results run1))).
  { unfold run1, new_run. cbn [run_results]. rewrite map_map. cbn [s_url].
    unfold results, batch_results. rewrite results_urls.
    apply kept_urls_distinct. now rewrite answers_urls. }
  assert (Hprev : r_previous r = r_scores r).
  { rewrite Hp. unfold get_or_empty, previous_scores_of.
    pose proof (previous_scores_unique _ _ Hnd1 Hx) as Hget.
    cbn [s_url s_scores] in Hget. now rewrite Hget. }
  split; [exact Hprev|].
  rewrite Hc, Hprev. apply compare_scores_same; [|exact Ht].
  exact (fetched_wf cfg (snd a) (r_scores r) Hf).
Qed.

Lemma unchanged_scores_no_change_witness :
  exists h1,
    stored_history
      (snd (main sample_cfg
              (sample_world (net_one_failure ++ net_one_failure ++ []) true)))
    = Some h1
    /\ forall r,
         In r (batch_results sample_cfg h1 (net_one_failure ++ [])) ->
         r_previous r = r_scores r /\ r_changes r = [].
Proof.
  assert (Hurls : valid_urls (urls sample_cfg) <> []) by (vm_compute; discriminate).
  assert (Hnd : NoDup (valid_urls (urls sample_cfg))).
  { vm_compute. repeat constructor; simpl; intuition discriminate. }
  assert (Ht : 0 < threshold sample_cfg) by reflexivity.
  assert (Hh : stored_history
                 (sample_world (net_one_failure ++ net_one_failure ++ []) true)
               = Some sample_history) by reflexivity.
  assert (Hnet : network
                   (sample_world (net_one_failure ++ net_one_failure ++ []) true)
                 = (net_one_failure ++ net_one_failure ++ [])%list)
    by reflexivity.
  assert (Hlen : List.length net_one_failure
                 = List.length (valid_urls (urls sample_cfg))) by reflexivity.
  destruct (unchanged_scores_no_change sample_cfg _ sample_history
              net_one_failure [] Hurls Hnd Ht Hh Hnet Hlen)
    as (h1 & H1 & _ & _ & H4).
  exists h1. exact (conj H1 H4).
Defined.

(** ** Sending the notification *)

(** X12.  [send_email] never raises: it returns [True] exactly when the
    three mail settings are present and the SMTP session succeeds, and
    [False] otherwise.  It opens a session only when the settings are
    present, and touches neither the history file nor the network. *)
Theorem send_email_result (cfg : config) (subject html_body text_body : string)
    (w : world) :
  fst (send_email cfg subject html_body text_body w)
  = Ret (email_configured cfg && smtp_up w)
  /\ history_file (snd (send_email cfg subject html_body text_body w))
     = history_file w
  /\ network (snd (send_email cfg subject html_body text_body w)) = network w
  /\ log (snd (send_email cfg subject html_body text_body w))
     = (log w ++ if email_configured cfg
                 then [EvSmtp subject html_body text_body] else [])%list.
Proof.
  unfold send_email. fold (email_configured cfg).
  destruct (email_configured cfg); cbn [negb andb].
  - unfold try_except, bind, smtp_deliver, bind, emit, add_log, ret.
    cbn [network history_file smtp_up now log].
    destruct (smtp_up w); now repeat split.
  - unfold ret. cbn. now rewrite app_nil_r.
Qed.

(** ** Changes and report rows *)

(** X13.  The report row of a category agrees with the Change reported for
    it: for a Change of non-zero difference the row shows the Change's
    previous score, its change indicator has the CSS class named by the
    Change's direction, and the indicator text is the signed difference
    with an up or a down arrow.  A Change of difference 0 (threshold 0 or
    less) is labelled [declined] while its row shows the no-change
    indicator. *)
Theorem change_matches_row (current previous : scores_t) (t : Z)
    (ch : change) :
  In ch (compare_scores current previous t) ->
  show_prev (Dict.get previous (ch_category ch)) = str (ch_previous ch)
  /\ (ch_diff ch <> 0 ->
      change_class (ch_current ch) (Dict.get previous (ch_category ch))
      = direction_name (ch_direction ch)
      /\ change_text (ch_current ch) (Dict.get previous (ch_category ch))
         = match ch_direction ch with
           | improved => "+" ++ str (ch_diff ch) ++ " ‚Üë"
           | declined => str (ch_diff ch) ++ " ‚Üì"
           end)
  /\ (ch_diff ch = 0 ->
      ch_direction ch = declined /\
      change_class (ch_current ch) (Dict.get previous (ch_category ch))
      = "no-change").
Proof.
  intros Hin. apply compare_scores_In in Hin.
  destruct Hin as (c & cur & prev & _ & Hp & _ & ->).
  cbn [ch_category ch_previous ch_current ch_diff ch_direction].
  rewrite Hp. unfold change_class, change_text, show_prev.
  split; [reflexivity|].
  destruct (Z.gtb_spec (cur - prev) 0) as [Hpos|Hnpos].
  - split; [now split | lia].
  - destruct (Z.ltb_spec (cur - prev) 0) as [Hneg|Hnneg].
    + split; [now split | lia].
    + split; [lia | now split].
Qed.

Lemma change_matches_row_witness :
  In sample_change
     (compare_scores [("performance", 79)] [("performance", 85)] 5) /\
  change_class (ch_current sample_change)
    (Dict.get [("performance", 85)] (ch_category sample_change))
  = direction_name (ch_direction sample_change).
Proof.
  assert (Hin : In sample_change
                   (compare_scores [("performance", 79)]
                                   [("performance", 85)] 5)).
  { vm_compute. left. reflexivity. }
  assert (Hnz : ch_diff sample_change <> 0) by (vm_compute; discriminate).
  exact (conj Hin
           (proj1 (proj1 (proj2 (change_matches_row _ _ 5 sample_change Hin))
                         Hnz))).
Defined.

(** ** What the reports contain *)













(** ** URLs from the configuration *)

Lemma split_comma_nonempty s : split_comma s <> [].
Proof.
  destruct s as [|c s]; [discriminate|]. simpl.
  destruct (Ascii.eqb c ","); [discriminate|].
  destruct (split_comma s); discriminate.
Qed.

Lemma join_comma_cons p ps :
  ps <> [] -> join_comma (p :: ps) = p ++ "," ++ join_comma ps.
Proof. destruct ps; [now intros H; elim H | reflexivity]. Qed.

Lemma split_comma_join s : join_comma (split_comma s) = s.
Proof.
  induction s as [|c s IH]; [reflexivity|]. cbn [split_comma].
  destruct (Ascii.eqb_spec c ",") as [->|Hne].
  - rewrite join_comma_cons by apply split_comma_nonempty. now rewrite IH.
  - pose proof (split_comma_nonempty s) as Hs.
    destruct (split_comma s) as [|p ps]; [now elim Hs|].
    destruct ps as [|p' ps].
    + simpl in *. now rewrite IH.
    + rewrite join_comma_cons by discriminate.
      rewrite join_comma_cons in IH by discriminate.
      simpl. now rewrite <- IH.
Qed.

Lemma split_comma_pieces s p :
  In p (split_comma s) -> has_char "," p = false.
Proof.
  revert p. induction s as [|c s IH]; intros p.
  - intros [<-|[]]. reflexivity.
  - cbn [split_comma]. destruct (Ascii.eqb_spec c ",") as [->|Hne].
    + intros [<-|Hin]; [reflexivity | now apply IH].
    + pose proof (split_comma_nonempty s) as Hs.
      destruct (split_comma s) as [|q qs]; [now elim Hs|].
      intros [<-|Hin].
      * cbn [has_char]. rewrite (IH q (or_introl eq_refl)), orb_false_r.
        now apply Ascii.eqb_neq.
      * apply IH. now right.
Qed.

Lemma lstrip_has_char c s : has_char c s = false -> has_char c (lstrip s) = false.
Proof.
  induction s as [|a s IH]; [trivial|]. cbn [has_char lstrip].
  intros H. apply orb_false_iff in H. destruct H as [Ha Hs].
  destruct (is_space a); [now apply IH|].
  cbn [has_char]. now rewrite Ha, Hs.
Qed.

Lemma rstrip_has_char c s : has_char c s = false -> has_char c (rstrip s) = false.
Proof.
  induction s as [|a s IH]; [trivial|]. cbn [has_char rstrip].
  intros H. apply orb_false_iff in H. destruct H as [Ha Hs].
  specialize (IH Hs). destruct (rstrip s) as [|b r].
  - destruct (is_space a); [reflexivity|]. cbn [has_char]. now rewrite Ha.
  - cbn [has_char] in *. now rewrite Ha, IH.
Qed.

(** X15.  The URLs listed in [config.json] are used as they are, whatever
    [LIGHTHOUSE_URLS] holds; without them, an unset or empty
    [LIGHTHOUSE_URLS] gives no URL, and otherwise its value is cut at every
    comma: joining the pieces with commas gives the value back, and after
    the cleaning done by [main] every URL of the batch is non-empty, free of
    commas and of surrounding whitespace. *)
Theorem urls_from_environment (env : string) :
  (forall file_urls env_urls,
     load_config_urls (Some file_urls) env_urls = file_urls)
  /\ load_config_urls None None = []
  /\ load_config_urls None (Some EmptyString) = []
  /\ (env <> EmptyString ->
      join_comma (load_config_urls None (Some env)) = env
      /\ forall u,
           In u (valid_urls (load_config_urls None (Some env))) ->
           u <> EmptyString /\ has_char "," u = false /\ strip u = u).
Proof.
  split; [reflexivity|]. split; [reflexivity|]. split; [reflexivity|].
  intros Hne. unfold load_config_urls.
  destruct env as [|c env]; [now elim Hne|]. cbn [nonempty].
  split; [apply split_comma_join|].
  intros u Hu. unfold valid_urls in Hu. apply in_map_iff in Hu.
  destruct Hu as (p & <- & Hp). apply filter_In in Hp. destruct Hp as [Hp Hn].
  split; [|split].
  - intros E. now rewrite E in Hn.
  - unfold strip. apply rstrip_has_char, lstrip_has_char.
    now apply (split_comma_pieces (String c env)).
  - apply strip_idempotent.
Qed.

Lemma urls_from_environment_witness :
  "https://a.example, https://b.example,," <> EmptyString /\
  join_comma
    (load_config_urls None (Some "https://a.example, https://b.example,,"))
  = "https://a.example, https://b.example,,".
Proof.
  assert (Hne : "https://a.example, https://b.example,," <> EmptyString)
    by discriminate.
  exact (conj Hne
           (proj1 (proj2 (proj2 (proj2
              (urls_from_environment
                 "https://a.example, https://b.example,,"))) Hne))).
Defined.

(** ** Category labels *)

Lemma to_upper_cased c :
  is_upper (to_upper c) || is_lower (to_upper c) = is_upper c || is_lower c.
Proof. destruct c as [[] [] [] [] [] [] [] []]; reflexivity. Qed.

Lemma to_lower_cased c :
  is_upper (to_lower c) || is_lower (to_lower c) = is_upper c || is_lower c.
Proof. destruct c as [[] [] [] [] [] [] [] []]; reflexivity. Qed.

Lemma to_upper_idempotent c : to_upper (to_upper c) = to_upper c.
Proof. destruct c as [[] [] [] [] [] [] [] []]; reflexivity. Qed.

Lemma to_lower_idempotent c : to_lower (to_lower c) = to_lower c.
Proof. destruct c as [[] [] [] [] [] [] [] []]; reflexivity. Qed.

Lemma title_from_idempotent s : forall b,
  title_from b (title_from b s) = title_from b s.
Proof.
  induction s as [|c s IH]; intros b; [reflexivity|]. cbn [title_from].
  destruct b.
  - rewrite to_lower_idempotent, to_lower_cased. now rewrite IH.
  - rewrite to_upper_idempotent, to_upper_cased. now rewrite IH.
Qed.

Lemma title_from_length s : forall b,
  String.length (title_from b s) = String.length s.
Proof. induction s as [|c s IH]; intros b; simpl; [reflexivity | now rewrite IH]. Qed.

Lemma replace_char_length a b s :
  String.length (replace_char a b s) = String.length s.
Proof. induction s as [|c s IH]; simpl; [reflexivity | now rewrite IH]. Qed.

Lemma to_case_hyphen c : Ascii.eqb c "-" = false ->
  Ascii.eqb (to_upper c) "-" = false /\ Ascii.eqb (to_lower c) "-" = false.
Proof. destruct c as [[] [] [] [] [] [] [] []]; intros H; split; trivial. Qed.

Lemma title_from_hyphen s : forall b,
  has_char "-" s = false -> has_char "-" (title_from b s) = false.
Proof.
  induction s as [|c s IH]; intros b H; [reflexivity|].
  cbn [has_char title_from] in *. apply orb_false_iff in H. destruct H as [Hc Hs].
  destruct (to_case_hyphen c Hc) as [Hu Hl].
  rewrite (IH _ Hs). now destruct b; rewrite ?Hu, ?Hl.
Qed.

Lemma replace_hyphen s : has_char "-" (replace_char "-" " " s) = false.
Proof.
  induction s as [|c s IH]; [reflexivity|]. cbn [replace_char has_char].
  rewrite IH. now destruct (Ascii.eqb_spec c "-") as [->|Hne];
    [|apply orb_false_iff; split; [apply Ascii.eqb_neq|]].
Qed.

Lemma to_case_ascii c :
  (nat_of_ascii c <? 128)%nat = true ->
  (nat_of_ascii (to_upper c) <? 128)%nat = true /\
  (nat_of_ascii (to_lower c) <? 128)%nat = true.
Proof. destruct c as [[] [] [] [] [] [] [] []]; intros H; split; trivial. Qed.

Lemma title_from_ascii s : forall b,
  is_ascii s = true -> is_ascii (title_from b s) = true.
Proof.
  induction s as [|c s IH]; intros b H; [reflexivity|].
  cbn [is_ascii title_from] in *. apply andb_true_iff in H.
  destruct H as [Hc Hs]. destruct (to_case_ascii c Hc) as [Hu Hl].
  rewrite (IH _ Hs). now destruct b; rewrite ?Hu, ?Hl.
Qed.

Lemma replace_char_ascii s :
  is_ascii s = true -> is_ascii (replace_char "-" " " s) = true.
Proof.
  induction s as [|c s IH]; intros H; [reflexivity|].
  cbn [is_ascii replace_char] in *. apply andb_true_iff in H.
  destruct H as [Hc Hs]. rewrite (IH Hs).
  now destruct (Ascii.eqb c "-"); [|rewrite Hc].
Qed.

(** X16.  For a category name made of ASCII characters, the label shown
    in the reports is made of ASCII characters too, has as many characters
    as the name and no hyphen, and labelling a label changes nothing. *)
Theorem label_shape (category : string) :
  is_ascii category = true ->
  is_ascii (label category) = true
  /\ String.length (label category) = String.length category
  /\ has_char "-" (label category) = false
  /\ label (label category) = label category.
Proof.
  intros Hascii. unfold label, title. split; [|split; [|split]].
  - now apply title_from_ascii, replace_char_ascii.
  - now rewrite title_from_length, replace_char_length.
  - apply title_from_hyphen, replace_hyphen.
  - assert (E : forall s, has_char "-" s = false -> replace_char "-" " " s = s).
    { induction s as [|c s IH]; [reflexivity|]. cbn [has_char replace_char].
      intros H. apply orb_false_iff in H. destruct H as [Hc Hs].
      now rewrite Hc, IH. }
    rewrite E by apply title_from_hyphen, replace_hyphen.
    apply title_from_idempotent.
Qed.

Lemma label_shape_witness :
  is_ascii "best-practices" = true /\
  label (label "best-practices") = label "best-practices".
Proof.
  assert (H : is_ascii "best-practices" = true) by reflexivity.
  exact (conj H (proj2 (proj2 (proj2 (label_shape "best-practices" H))))).
Defined.
